(** * sei-sense: network registry, address validation, transaction history
      reconstruction and wallet risk scoring

    A shallow embedding of the TypeScript sources

    - [sei-mcp-serverr/src/core/chains.ts]            (module [Chains])
    - [sei-mcp-serverr/src/core/services/utils.ts]    (module [Utils])
    - [sei-mcp-serverr/src/core/services/network.ts]  (module [Network])
    - [core/services/transactions.ts]                 (module [Transactions])
    - the [analyze_wallet] handler of [core/tools.ts] (module [Tools])

    followed by the properties proved of them.

    Conventions.  A JavaScript string is a [string] whose characters are code
    units below 256.  A [bigint] is a [Z]; a [number] holding a count, a
    chain id or a block height is a [Z]; a [number] that may be fractional
    (the [limit] of a history, the risk score) is an exact rational [Q],
    so rounding of floating-point sums is not modelled, and [NaN] is the
    [None] of an [option].  What [parseInt] returns is the double nearest
    to the integer it reads, which can be an infinity.  A rejected promise
    and a [throw] are the [Err] case of [result], carrying the message of
    the error.  The chain client, the clock and [Math.random] are
    parameters. *)

From Stdlib Require Import ZArith QArith Qround Qminmax List Bool Lia.
From Stdlib Require Import Ascii String.
From Stdlib Require Import Numbers.DecimalString Numbers.DecimalZ Numbers.DecimalPos.
From Stdlib Require Import Sorting.Sorted Sorting.Permutation.
From Stdlib Require Numbers.HexadecimalString.
Import ListNotations.

Local Open Scope string_scope.
Local Open Scope Z_scope.

(** ** Results of fallible code *)

Inductive result (A : Type) : Type :=
| Ok (a : A)
| Err (message : string).
Arguments Ok {A} a.
Arguments Err {A} message.

(** * The JavaScript runtime the sources rely on *)

Module JS.

(** Code unit of a character. *)
Definition code (c : ascii) : N := N_of_ascii c.

Definition in_range (lo hi c : ascii) : bool :=
  (code lo <=? code c)%N && (code c <=? code hi)%N.

(** [String.prototype.toLowerCase] on code units below 256: the letters
    A-Z, and the Latin-1 capitals U+00C0..U+00DE other than U+00D7. *)
Definition lower_char (c : ascii) : ascii :=
  let n := code c in
  if ((65 <=? n) && (n <=? 90))%N then ascii_of_N (n + 32)
  else if ((192 <=? n) && (n <=? 222) && negb (n =? 215))%N then ascii_of_N (n + 32)
  else c.

Fixpoint toLowerCase (s : string) : string :=
  match s with
  | EmptyString => EmptyString
  | String c r => String (lower_char c) (toLowerCase r)
  end.

(** [s.startsWith(p)]. *)
Fixpoint startsWith (p s : string) : bool :=
  match p, s with
  | EmptyString, _ => true
  | String a p', String b s' => Ascii.eqb a b && startsWith p' s'
  | String _ _, EmptyString => false
  end.

(** [s.includes(p)]: [p] occurs somewhere in [s]. *)
Fixpoint includes (s p : string) : bool :=
  startsWith p s ||
  match s with
  | EmptyString => false
  | String _ r => includes r p
  end.

(** [s.slice(-n)]: the last [n] code units (all of [s] when it is shorter). *)
Definition slice_last (n : nat) (s : string) : string :=
  substring (String.length s - n) n s.

(** [a in list]. *)
Definition mem (k : string) (l : list string) : bool :=
  existsb (String.eqb k) l.

(** *** parseInt *)

(** White space that [parseInt] skips, among code units below 256. *)
Definition is_space (c : ascii) : bool :=
  let n := code c in
  ((9 <=? n) && (n <=? 13) || (n =? 32) || (n =? 160))%N.

Fixpoint trimStart (s : string) : string :=
  match s with
  | String c r => if is_space c then trimStart r else s
  | EmptyString => EmptyString
  end.

(** Value of a character as a digit, any radix up to 36. *)
Definition digit_value (c : ascii) : option Z :=
  let n := code c in
  if ((48 <=? n) && (n <=? 57))%N then Some (Z.of_N n - 48)
  else if ((97 <=? n) && (n <=? 122))%N then Some (Z.of_N n - 87)
  else if ((65 <=? n) && (n <=? 90))%N then Some (Z.of_N n - 55)
  else None.

Definition digit_in (radix : Z) (c : ascii) : option Z :=
  match digit_value c with
  | Some d => if d <? radix then Some d else None
  | None => None
  end.

(** Longest prefix of digits of the radix, read left to right;
    [None] when the prefix is empty. *)
Fixpoint digits_from (radix : Z) (s : string) (acc : option Z) : option Z :=
  match s with
  | EmptyString => acc
  | String c r =>
      match digit_in radix c with
      | Some d =>
          digits_from radix r
            (Some (match acc with Some a => a * radix + d | None => d end))
      | None => acc
      end
  end.

Definition strip_sign (s : string) : Z * string :=
  match s with
  | String "-" r => (-1, r)
  | String "+" r => (1, r)
  | _ => (1, s)
  end.

Definition strip_hex_prefix (s : string) : option string :=
  match s with
  | String "0" (String "x" r) => Some r
  | String "0" (String "X" r) => Some r
  | _ => None
  end.

(** The integer that the numeral [parseInt(s, radix)] reads denotes, before
    it is made a [number]; [radix = 0] stands for an absent radix, and
    [None] is the absence of a numeral. *)
Definition mathInt (s : string) (radix : Z) : option Z :=
  let '(sign, body) := strip_sign (trimStart s) in
  if (radix =? 0) || (radix =? 16) then
    match strip_hex_prefix body with
    | Some r => option_map (Z.mul sign) (digits_from 16 r None)
    | None =>
        option_map (Z.mul sign)
          (digits_from (if radix =? 0 then 10 else 16) body None)
    end
  else if (radix <? 2) || (36 <? radix) then None
  else option_map (Z.mul sign) (digits_from radix body None).

(** What [parseInt] returns other than [NaN]: an integer that a double
    holds, or an infinity.  ([-0] is not told from [0].) *)
Inductive number : Type :=
| Finite (value : Z)
| Infinity (negative : bool).

(** The double nearest to an integer, ties to the even significand: exact
    below 2^53, on 53 significant bits above, and infinite once the rounded
    value reaches 2^1024. *)
Definition round_to_double (z : Z) : number :=
  let a := Z.abs z in
  if a <? 2 ^ 53 then Finite z
  else
    let e := Z.log2 a - 52 in
    let m := Z.shiftr a e in
    let r := a - Z.shiftl m e in
    let half := Z.shiftl 1 (e - 1) in
    let m := if (half <? r) || ((r =? half) && Z.odd m) then m + 1 else m in
    let v := Z.shiftl m e in
    if 2 ^ 1024 <=? v then Infinity (z <? 0) else Finite (Z.sgn z * v).

(** [parseInt(s, radix)]: the integer read, as the [number] nearest to it;
    [None] is [NaN].  (The sources call it without a radix and with radix
    16; for these the rounding is the one Node makes at every length.) *)
Definition parseInt (s : string) (radix : Z) : option number :=
  option_map round_to_double (mathInt s radix).

(** *** Decimal rendering of big integers *)

(** [BigInt.prototype.toString()]. *)
Definition bigint_toString (z : Z) : string :=
  NilZero.string_of_int (Z.to_int z).

(** [BigInt(s)] on decimal numerals; [None] is the [SyntaxError]. *)
Definition BigInt_of_string (s : string) : option Z :=
  option_map Z.of_int (NilZero.int_of_string s).

(** *** Dates *)

(** Decimal digits of [z], padded with zeros on the left to [width]. *)
Definition pad (width : nat) (z : Z) : string :=
  let digits := bigint_toString z in
  append (string_of_list_ascii (repeat "0"%char (width - String.length digits)))
         digits.

(** Year, month and day of the day numbered [days] from 1970-01-01. *)
Definition civil_from_days (days : Z) : Z * Z * Z :=
  let z := days + 719468 in
  let era := z / 146097 in
  let doe := z - era * 146097 in
  let yoe := (doe - doe / 1460 + doe / 36524 - doe / 146096) / 365 in
  let doy := doe - (365 * yoe + yoe / 4 - yoe / 100) in
  let mp := (5 * doy + 2) / 153 in
  let d := doy - (153 * mp + 2) / 5 + 1 in
  let m := if mp <? 10 then mp + 3 else mp - 9 in
  let y := yoe + era * 400 + (if m <=? 2 then 1 else 0) in
  (y, m, d).

(** [new Date(ms).toISOString()]; [None] is the [RangeError] of a time
    value outside the range of [Date]. *)
Definition toISOString (ms : Z) : option string :=
  if 8640000000000000 <? Z.abs ms then None
  else
    let '(y, m, d) := civil_from_days (ms / 86400000) in
    let t := ms mod 86400000 in
    let year :=
      if (0 <=? y) && (y <=? 9999) then pad 4 y
      else append (if y <? 0 then "-" else "+") (pad 6 (Z.abs y)) in
    Some (year ++ "-" ++ pad 2 m ++ "-" ++ pad 2 d ++ "T" ++
          pad 2 (t / 3600000) ++ ":" ++ pad 2 (t / 60000 mod 60) ++ ":" ++
          pad 2 (t / 1000 mod 60) ++ "." ++ pad 3 (t mod 1000) ++ "Z").

(** *** Regular expressions of the shape [/^a1 a2 ... an$/]

    Each atom matches exactly one code unit; [x{k}] is [k] copies of [x].
    Without the [m] flag, [^] and [$] match only at the two ends of the
    input. *)

Inductive atom : Type :=
| Lit (c : ascii)
| Class (ranges : list (ascii * ascii)).

Definition atom_accepts (a : atom) (c : ascii) : bool :=
  match a with
  | Lit l => Ascii.eqb l c
  | Class rs => existsb (fun r => in_range (fst r) (snd r) c) rs
  end.

Fixpoint lits (s : string) : list atom :=
  match s with
  | EmptyString => []
  | String c r => Lit c :: lits r
  end.

(** [RegExp.prototype.test] for a fully anchored sequence of atoms. *)
Fixpoint test (re : list atom) (s : string) : bool :=
  match re, s with
  | [], EmptyString => true
  | a :: re', String c s' => atom_accepts a c && test re' s'
  | _, _ => false
  end.

(** *** Plain objects used as maps

    A property read on an object literal first looks at the object's own
    properties and then at [Object.prototype]. *)

Definition Object_prototype_names : list string :=
  [ "constructor"; "__defineGetter__"; "__defineSetter__"; "hasOwnProperty";
    "__lookupGetter__"; "__lookupSetter__"; "isPrototypeOf";
    "propertyIsEnumerable"; "toString"; "valueOf"; "__proto__";
    "toLocaleString" ].

Fixpoint own {A : Type} (o : list (string * A)) (k : string) : option A :=
  match o with
  | [] => None
  | (k', v) :: r => if String.eqb k k' then Some v else own r k
  end.

(** What [o[k]] evaluates to. *)
Inductive property (A : Type) : Type :=
| Own (v : A)
| Inherited (name : string)
| Undefined.
Arguments Own {A} v.
Arguments Inherited {A} name.
Arguments Undefined {A}.

Definition get {A : Type} (o : list (string * A)) (k : string) : property A :=
  match own o k with
  | Some v => Own v
  | None => if mem k Object_prototype_names then Inherited k else Undefined
  end.

(** [k in o]. *)
Definition has {A : Type} (o : list (string * A)) (k : string) : bool :=
  match get o k with
  | Undefined => false
  | _ => true
  end.

(** [Object.keys(o)]: own keys in insertion order (no key here is an
    array index). *)
Definition keys {A : Type} (o : list (string * A)) : list string :=
  map fst o.

(** *** Decimal numerals *)

(** The number a decimal numeral denotes after the digits read so far
    amount to [acc]. *)
Fixpoint decimal_value (d : Decimal.uint) (acc : Z) : Z :=
  match d with
  | Decimal.Nil => acc
  | Decimal.D0 l => decimal_value l (acc * 10 + 0)
  | Decimal.D1 l => decimal_value l (acc * 10 + 1)
  | Decimal.D2 l => decimal_value l (acc * 10 + 2)
  | Decimal.D3 l => decimal_value l (acc * 10 + 3)
  | Decimal.D4 l => decimal_value l (acc * 10 + 4)
  | Decimal.D5 l => decimal_value l (acc * 10 + 5)
  | Decimal.D6 l => decimal_value l (acc * 10 + 6)
  | Decimal.D7 l => decimal_value l (acc * 10 + 7)
  | Decimal.D8 l => decimal_value l (acc * 10 + 8)
  | Decimal.D9 l => decimal_value l (acc * 10 + 9)
  end.

End JS.

(** * services/utils.ts *)

Module Utils.

Definition hex_class : JS.atom :=
  JS.Class [("a", "f"); ("A", "F"); ("0", "9")]%char.

Definition bech_class : JS.atom :=
  JS.Class [("0", "9"); ("a", "z")]%char.

(** [/^0x[a-fA-F0-9]{40}$/] *)
Definition evm_regex : list JS.atom :=
  JS.lits "0x" ++ repeat hex_class 40.

(** [/^sei1[0-9a-z]{38}$/] *)
Definition sei_regex : list JS.atom :=
  JS.lits "sei1" ++ repeat bech_class 38.

(** The error thrown for a rejected address. *)
Definition InvalidAddressError (address : string) : string :=
  "Invalid address: " ++ address.

Definition validateAddress (address : string) : result string :=
  if JS.test evm_regex address then Ok address
  else if JS.test sei_regex address then Ok address
  else Err (InvalidAddressError address).

(** The two address shapes in the specification's words: [0x] followed by
    40 hexadecimal characters, and [sei1] followed by 38 characters that are
    digits or lower-case letters. *)
Definition char_in (set : string) (c : ascii) : bool :=
  existsb (Ascii.eqb c) (list_ascii_of_string set).

Definition all_in (set : string) (s : string) : Prop :=
  forall c, In c (list_ascii_of_string s) -> char_in set c = true.

Definition hex_digits : string := "0123456789abcdefABCDEF".
Definition bech_chars : string := "0123456789abcdefghijklmnopqrstuvwxyz".

Definition valid_evm_address (s : string) : Prop :=
  exists h, s = "0x" ++ h /\ String.length h = 40%nat /\
            all_in hex_digits h.

Definition valid_sei_address (s : string) : Prop :=
  exists b, s = "sei1" ++ b /\ String.length b = 38%nat /\
            all_in bech_chars b.

End Utils.


(** * core/chains.ts *)

Module Chains.

(** The chain descriptors imported from [viem/chains]. *)
Inductive Chain : Type := sei | seiTestnet | seiDevnet.

Definition DEFAULT_NETWORK : string := "sei-testnet".
Definition DEFAULT_CHAIN_ID : Z := 1328.

Definition chainMap : list (Z * Chain) :=
  [ (1329, sei); (1328, seiTestnet); (713715, seiDevnet) ].

Definition networkNameMap : list (string * Z) :=
  [ ("sei", 1329); ("sei-testnet", 1328); ("sei-devnet", 713715) ].

(** A chain identifier is a [number] or a [string]. *)
Inductive identifier : Type :=
| IdNum (n : Z)
| IdStr (s : string).

(** What [resolveChainId] hands back at run time: a number, which
    [parseInt] can make infinite, or the member of [Object.prototype] that
    a property read on [networkNameMap] found. *)
Inductive resolved : Type :=
| Num (n : Z)
| ProtoMember (name : string)
| Infinite (negative : bool).

Definition resolveChainId (chainIdentifier : identifier) : resolved :=
  match chainIdentifier with
  | IdNum n => Num n
  | IdStr s =>
      let networkName := JS.toLowerCase s in
      if JS.has networkNameMap networkName then
        match JS.get networkNameMap networkName with
        | JS.Own n => Num n
        | JS.Inherited name => ProtoMember name
        | JS.Undefined => Num DEFAULT_CHAIN_ID
        end
      else
        match JS.parseInt networkName 0 with
        | Some (JS.Finite parsedId) => Num parsedId
        | Some (JS.Infinity negative) => Infinite negative
        | None => Num DEFAULT_CHAIN_ID
        end
  end.

(** [chainMap[k]] for a numeric key. A decimal numeral is never the name of
    a member of [Object.prototype], so only own properties can answer. *)
Fixpoint chainMap_get (m : list (Z * Chain)) (k : Z) : option Chain :=
  match m with
  | [] => None
  | (k', c) :: r => if k =? k' then Some c else chainMap_get r k
  end.

Definition UnsupportedNetworkError (chainIdentifier : string) : string :=
  "Unsupported network: " ++ chainIdentifier.

(** [x || sei] *)
Definition or_sei (x : option Chain) : Chain :=
  match x with Some c => c | None => sei end.

Definition getChain (chainIdentifier : identifier) : result Chain :=
  match chainIdentifier with
  | IdStr s =>
      let networkName := JS.toLowerCase s in
      match JS.get networkNameMap networkName with
      | JS.Own n =>
          if n =? 0 then Err (UnsupportedNetworkError s)
          else Ok (or_sei (chainMap_get chainMap n))
      | JS.Inherited _ =>
          (* a function or an object: truthy, and as a key of [chainMap]
             its string form names no property *)
          Ok (or_sei None)
      | JS.Undefined => Err (UnsupportedNetworkError s)
      end
  | IdNum n => Ok (or_sei (chainMap_get chainMap n))
  end.

Definition getSupportedNetworks : list string :=
  filter (fun name => negb (JS.includes name "-")) (JS.keys networkNameMap).

(** The aliases: the names [networkNameMap] itself lists. *)
Definition known_alias (name : string) : bool :=
  JS.mem name (JS.keys networkNameMap).

(** ** Endpoints *)

Definition DEFAULT_RPC_URL : string := "https://evm-rpc-testnet.sei-apis.com".

Module SEI_RPC_ENDPOINTS.
Definition mainnet : list string :=
  [ "https://evm-rpc.sei-apis.com";
    "https://sei-evm-rpc.stakeme.pro";
    "https://node.histori.xyz/sei-mainnet/8ry9f6t9dct1se2hlagxnd9n2a";
    "https://sei.drpc.org" ].
Definition testnet : list string :=
  [ "https://evm-rpc-testnet.sei-apis.com" ].
Definition devnet : list string :=
  [ "https://evm-rpc-arctic-1.sei-apis.com" ].
End SEI_RPC_ENDPOINTS.

Module SEI_WS_ENDPOINTS.
Definition mainnet : list string :=
  [ "wss://evm-ws.sei-apis.com"; "wss://sei.drpc.org" ].
Definition testnet : list string :=
  [ "wss://evm-ws-testnet.sei-apis.com" ].
Definition devnet : list string :=
  [ "wss://evm-ws-arctic-1.sei-apis.com" ].
End SEI_WS_ENDPOINTS.

(** [pool[0]]: [undefined] on an empty array. *)
Definition first (pool : list string) : option string := hd_error pool.

Definition rpcUrlMap : list (Z * option string) :=
  [ (1329, first SEI_RPC_ENDPOINTS.mainnet);
    (1328, first SEI_RPC_ENDPOINTS.testnet);
    (713715, first SEI_RPC_ENDPOINTS.devnet) ].

Definition rpcUrlPoolMap : list (Z * list string) :=
  [ (1329, SEI_RPC_ENDPOINTS.mainnet);
    (1328, SEI_RPC_ENDPOINTS.testnet);
    (713715, SEI_RPC_ENDPOINTS.devnet) ].

(** [m[k]] for a map keyed by chain ids and a key as [resolveChainId]
    returns it.  An inherited member of [Object.prototype] used as a key
    names no property of such a map, and neither does an infinity. *)
Fixpoint num_get {A : Type} (m : list (Z * A)) (k : Z) : option A :=
  match m with
  | [] => None
  | (k', v) :: r => if k =? k' then Some v else num_get r k
  end.

Definition at_key {A : Type} (m : list (Z * A)) (k : resolved) : option A :=
  match k with
  | Num n => num_get m n
  | ProtoMember _ => None
  | Infinite _ => None
  end.

(** [k === n] *)
Definition is_id (k : resolved) (n : Z) : bool :=
  match k with
  | Num m => m =? n
  | ProtoMember _ => false
  | Infinite _ => false
  end.

(** [x || DEFAULT_RPC_URL] for a string that may be [undefined]. *)
Definition or_default_url (x : option (option string)) : string :=
  match x with
  | Some (Some url) => if String.eqb url "" then DEFAULT_RPC_URL else url
  | _ => DEFAULT_RPC_URL
  end.

Definition getRpcUrl (chainIdentifier : identifier) : string :=
  let chainId :=
    match chainIdentifier with
    | IdStr _ => resolveChainId chainIdentifier
    | IdNum n => Num n
    end in
  or_default_url (at_key rpcUrlMap chainId).

Definition getRpcUrlPool (chainIdentifier : identifier) : list string :=
  let chainId := resolveChainId chainIdentifier in
  match at_key rpcUrlPoolMap chainId with
  | Some pool => pool
  | None => [DEFAULT_RPC_URL]
  end.

Definition getWebSocketUrlPool (chainIdentifier : identifier) : list string :=
  let chainId := resolveChainId chainIdentifier in
  if is_id chainId 1329 then SEI_WS_ENDPOINTS.mainnet
  else if is_id chainId 1328 then SEI_WS_ENDPOINTS.testnet
  else if is_id chainId 713715 then SEI_WS_ENDPOINTS.devnet
  else SEI_WS_ENDPOINTS.mainnet.

Definition getWebSocketUrl (chainIdentifier : identifier) : option string :=
  let chainId := resolveChainId chainIdentifier in
  let endpoints :=
    if is_id chainId 1329 then SEI_WS_ENDPOINTS.mainnet
    else if is_id chainId 1328 then SEI_WS_ENDPOINTS.testnet
    else if is_id chainId 713715 then SEI_WS_ENDPOINTS.devnet
    else SEI_WS_ENDPOINTS.mainnet in
  first endpoints.

End Chains.

(** * core/services/network.ts *)

Module Network.

Record NetworkInfo : Type := {
  name : string;
  chainId : string;
  type : string;
  rpcUrl : string;
  restUrl : string
}.

Record SupportedNetworks : Type := {
  networks : list NetworkInfo
}.

Definition getSupportedNetworks : SupportedNetworks :=
  {| networks :=
       [ {| name := "sei"; chainId := "pacific-1"; type := "cosmos";
            rpcUrl := "https://rpc.sei-apis.com";
            restUrl := "https://rest.sei-apis.com" |};
         {| name := "sei-testnet"; chainId := "atlantic-2"; type := "cosmos";
            rpcUrl := "https://rpc-testnet.sei-apis.com";
            restUrl := "https://rest-testnet.sei-apis.com" |} ] |}.

(** What [getChainInfo] returns. *)
Module ChainInfo.
Record t : Type := mk {
  chainId : string;
  chainName : string;
  rpcUrl : string;
  restUrl : string;
  type : string;
  status : string
}.
End ChainInfo.

(** What [getNetworkStatus] returns. *)
Module NetworkStatus.
Record t : Type := mk {
  network : string;
  chainId : string;
  status : string;
  blockHeight : Z;
  timestamp : string
}.
End NetworkStatus.

(** A parameter with the default ['sei']: [None] is an absent argument. *)
Definition or_sei_name (network : option string) : string :=
  match network with
  | Some n => n
  | None => "sei"
  end.

(** [networks.networks.find(n => n.name === network)] *)
Definition find_network (network : string) : option NetworkInfo :=
  find (fun n => String.eqb (name n) network) (networks getSupportedNetworks).

Definition not_supported (network : string) : string :=
  "Network " ++ network ++ " not supported".

Definition getChainInfo (network : option string) : result ChainInfo.t :=
  let network := or_sei_name network in
  match find_network network with
  | Some networkInfo =>
      Ok {| ChainInfo.chainId := chainId networkInfo;
            ChainInfo.chainName := name networkInfo;
            ChainInfo.rpcUrl := rpcUrl networkInfo;
            ChainInfo.restUrl := restUrl networkInfo;
            ChainInfo.type := type networkInfo;
            ChainInfo.status := "active" |}
  | None => Err (not_supported network)
  end.

Section Status.

(** The draw of [Math.random()] and the rendering of the current time,
    [new Date().toISOString()]. *)
Variable Math_random : Q.
Variable now_iso : string.

Definition getNetworkStatus (network : option string)
    : result NetworkStatus.t :=
  let network := or_sei_name network in
  match find_network network with
  | Some networkInfo =>
      Ok {| NetworkStatus.network := name networkInfo;
            NetworkStatus.chainId := chainId networkInfo;
            NetworkStatus.status := "active";
            NetworkStatus.blockHeight :=
              Qfloor (Math_random * inject_Z 1000000) + 5000000;
            NetworkStatus.timestamp := now_iso |}
  | None => Err (not_supported network)
  end.

End Status.

End Network.

(** * core/services/transactions.ts *)

Module Transactions.

(** ** What the chain client returns *)

(** A transaction as a block lists it. *)
Module Tx.
Record t : Type := mk {
  hash : string;
  from : option string;
  to : option string;        (* [null] for a contract creation *)
  input : option string;
  gasPrice : option Z;
  value : option Z
}.
End Tx.

(** An element of [block.transactions]: a bare hash or a full object. *)
Inductive entry : Type :=
| TxHash (h : string)
| TxObject (txObj : Tx.t).

Module Block.
Record t : Type := mk {
  number : Z;
  timestamp : Z;             (* seconds *)
  transactions : list entry
}.
End Block.

Module Receipt.
Record t : Type := mk {
  gasUsed : Z;
  status : string
}.
End Receipt.

(** The public client [getPublicClient(network)] returns, bound to the
    network: one answer per request. *)
Module Client.
Record t : Type := mk {
  getBlockNumber : result Z;
  getBlock : Z -> result Block.t;
  getTransactionReceipt : string -> result Receipt.t;
  getTransactionCount : string -> result Z
}.
End Client.

(** ** What the service returns *)

Inductive Status : Type := success | failed.
Inductive TxType : Type := transfer | contract | swap | other.

(** An element of the [transactions] array. *)
Module Record.
Record t : Type := mk {
  hash : string;
  from : string;
  to : option string;
  value : string;
  gasUsed : string;
  gasPrice : string;
  blockNumber : Z;
  timestamp : string;
  status : Status;
  type : TxType;
  fee : string
}.
End Record.

Module History.
Record t : Type := mk {
  transactions : list Record.t;
  totalCount : nat
}.
End History.

Module Recent.
Record t : Type := mk {
  hash : string;
  type : TxType;
  amount : string;
  timestamp : string
}.
End Recent.

Module Activity.
Record t : Type := mk {
  transactionCount : Z;
  lastActivity : option string;
  recentTransactions : list Recent.t
}.
End Activity.

(** ** Pieces of the loop body *)

(** [x?.toLowerCase() === address.toLowerCase()] *)
Definition same_address (x : option string) (address : string) : bool :=
  match x with
  | Some a => String.eqb (JS.toLowerCase a) (JS.toLowerCase address)
  | None => false
  end.

Definition isInvolved (txObj : Tx.t) (address : string) : bool :=
  same_address (Tx.from txObj) address || same_address (Tx.to txObj) address.

(** [transactions.length < limit], for a finite [limit]. *)
Definition below (limit : Q) (transactions : list Record.t) : bool :=
  negb (Qle_bool limit (inject_Z (Z.of_nat (List.length transactions)))).

(** The [txType] the loop body assigns. *)
Definition txType (to : option string) (input : option string) : TxType :=
  match to with
  | None => contract
  | Some _ =>
      match input with
      | Some data =>
          if negb (String.eqb data "") && negb (String.eqb data "0x") then
            let input := JS.toLowerCase data in
            if JS.includes input "a9059cbb" || JS.includes input "23b872dd"
            then transfer
            else if JS.includes input "7ff36ab5" || JS.includes input "38ed1739"
            then swap
            else contract
          else transfer
      | None => transfer
      end
  end.

(** The classification in the specification's words: by the selector, the
    four bytes that lead the call data, alone. *)
Definition selector (data : string) : string :=
  substring 2 8 (JS.toLowerCase data).

Definition txType_by_selector (input : option string) : TxType :=
  match input with
  | Some data =>
      if String.eqb data "" || String.eqb data "0x" then transfer
      else if String.eqb (selector data) "a9059cbb"
              || String.eqb (selector data) "23b872dd" then transfer
      else if String.eqb (selector data) "7ff36ab5"
              || String.eqb (selector data) "38ed1739" then swap
      else contract
  | None => transfer
  end.

(** [txObj.gasPrice || '0']: a bigint, or the string ['0']. *)
Definition gasPrice_or_0 (g : option Z) : Z + string :=
  match g with
  | Some p => if p =? 0 then inr "0" else inl p
  | None => inr "0"
  end.

(** [BigInt(x)] and [x.toString()] for a bigint or a string. *)
Definition BigInt (x : Z + string) : option Z :=
  match x with
  | inl z => Some z
  | inr s => JS.BigInt_of_string s
  end.

Definition toString (x : Z + string) : string :=
  match x with
  | inl z => JS.bigint_toString z
  | inr s => s
  end.

(** [x || d] for strings. *)
Definition or_string (x : option string) (d : string) : string :=
  match x with
  | Some s => if String.eqb s "" then d else s
  | None => d
  end.

(** [b.blockNumber - a.blockNumber], the comparator given to [sort]. *)
Definition newest_first (a b : Record.t) : Z :=
  Record.blockNumber b - Record.blockNumber a.

(** [Array.prototype.sort] with a comparator: stable, by insertion. *)
Fixpoint insert (cmp : Record.t -> Record.t -> Z) (x : Record.t)
    (l : list Record.t) : list Record.t :=
  match l with
  | [] => [x]
  | y :: r => if 0 <? cmp x y then y :: insert cmp x r else x :: l
  end.

Fixpoint sort (cmp : Record.t -> Record.t -> Z) (l : list Record.t)
    : list Record.t :=
  match l with
  | [] => []
  | x :: r => insert cmp x (sort cmp r)
  end.

(** *** Notions the properties are stated with *)

(** The largest number of records a limit lets in: the limit rounded up to
    a whole number, and none for a limit of zero or less. *)
Definition capacity (limit : Q) : nat := Z.to_nat (Qceiling limit).

Definition newer_or_same (a b : Record.t) : Prop :=
  Record.blockNumber b <= Record.blockNumber a.

(** Newest first: no record is followed by one of a higher block. *)
Definition descending (l : list Record.t) : Prop :=
  StronglySorted newer_or_same l.

(** The call data of a transaction, when it has some: [input] is neither
    absent, nor empty, nor the bare prefix [0x]. *)
Definition call_data (input : option string) : option string :=
  match input with
  | Some data =>
      if negb (String.eqb data "") && negb (String.eqb data "0x")
      then Some data else None
  | None => None
  end.

(** The result of a call known to have succeeded. *)
Definition history_of (r : result History.t) : History.t :=
  match r with
  | Ok h => h
  | Err _ => {| History.transactions := []; History.totalCount := 0 |}
  end.

Section Service.

(** The client [getPublicClient(network)] returned, and the runtime's
    [Date] and [Math.random]. *)
Variable client : Client.t.
(** [new Date(ms).toISOString()]; [None] when it throws [RangeError]. *)
Variable toISOString : Z -> option string.
Variable Date_now : Z.
Variable Math_random : Q.

(** The receipt lookup with its own [try]/[catch]. *)
Definition receipt_of (hash : string) : string * Status :=
  match Client.getTransactionReceipt client hash with
  | Ok receipt =>
      (JS.bigint_toString (Receipt.gasUsed receipt),
       if String.eqb (Receipt.status receipt) "success" then success else failed)
  | Err _ => ("0", success)
  end.

(** The object the loop body pushes for an involved transaction, from the
    receipt lookup to the object literal.  [None]: the body threw. *)
Definition record_of (block : Block.t) (txObj : Tx.t) : option Record.t :=
  let '(gasUsed, status) := receipt_of (Tx.hash txObj) in
  let txType := txType (Tx.to txObj) (Tx.input txObj) in
  let gasPrice := gasPrice_or_0 (Tx.gasPrice txObj) in
  match JS.BigInt_of_string gasUsed, BigInt gasPrice,
        toISOString (Block.timestamp block * 1000) with
  | Some used, Some price, Some iso =>
      let fee := JS.bigint_toString (used * price) in
      Some {| Record.hash := Tx.hash txObj;
              Record.from := or_string (Tx.from txObj) "";
              Record.to := Tx.to txObj;
              Record.value :=
                or_string (option_map JS.bigint_toString (Tx.value txObj)) "0";
              Record.gasUsed := gasUsed;
              Record.gasPrice := toString gasPrice;
              Record.blockNumber := Block.number block;
              Record.timestamp := iso;
              Record.status := status;
              Record.type := txType;
              Record.fee := fee |}
  | _, _, _ => None
  end.

(** One turn of [for (const tx of block.transactions)].
    [None]: the body threw, which the block's [catch] receives. *)
Definition visit (address : string) (limit : Q) (block : Block.t)
    (tx : entry) (transactions : list Record.t) : option (list Record.t) :=
  match tx with
  | TxHash _ => Some transactions
  | TxObject txObj =>
      if isInvolved txObj address && below limit transactions then
        match record_of block txObj with
        | Some record => Some (transactions ++ [record])%list
        | None => None
        end
      else Some transactions
  end.

(** The whole inner loop; a throw leaves what was pushed so far. *)
Fixpoint visit_all (address : string) (limit : Q) (block : Block.t)
    (txs : list entry) (transactions : list Record.t) : list Record.t :=
  match txs with
  | [] => transactions
  | tx :: rest =>
      match visit address limit block tx transactions with
      | Some transactions' => visit_all address limit block rest transactions'
      | None => transactions
      end
  end.

(** The body of the outer loop for one block number. *)
Definition search_block (address : string) (limit : Q) (blockNum : Z)
    (transactions : list Record.t) : list Record.t :=
  match Client.getBlock client blockNum with
  | Ok block =>
      visit_all address limit block (Block.transactions block) transactions
  | Err _ => transactions
  end.

(** [for (blockNum = latestBlock; blockNum > startBlock &&
         transactions.length < limit; blockNum--)] *)
Fixpoint search (fuel : nat) (address : string) (limit : Q)
    (blockNum startBlock : Z) (transactions : list Record.t)
    : list Record.t :=
  match fuel with
  | O => transactions
  | S fuel' =>
      if (startBlock <? blockNum) && below limit transactions then
        search fuel' address limit (blockNum - 1) startBlock
          (search_block address limit blockNum transactions)
      else transactions
  end.

(** The window holds at most 100 blocks, so 100 turns always suffice
    (see [search_fuel]). *)
Definition window : nat := 100.

Definition getTransactionHistory (address : string) (limit : Q)
    : result History.t :=
  match Client.getBlockNumber client with
  | Ok latestBlock =>
      let blocksToSearch := Z.min 100 latestBlock in
      let startBlock := latestBlock - blocksToSearch in
      let transactions :=
        sort newest_first
          (search window address limit latestBlock startBlock []) in
      Ok {| History.transactions := transactions;
            History.totalCount := List.length transactions |}
  | Err message =>
      Err ("Failed to fetch transaction history: " ++ message)
  end.

(** Where a record comes from: an involved transaction of a block the
    client returned. *)
Definition collected (address : string) (record : Record.t) : Prop :=
  exists blockNum block txObj,
    Client.getBlock client blockNum = Ok block /\
    In (TxObject txObj) (Block.transactions block) /\
    isInvolved txObj address = true /\
    record_of block txObj = Some record.

Definition getTransactionCount (address : string) : result Z :=
  Client.getTransactionCount client address.

(** [Math.max(1, Math.min(365, Math.floor(Math.random() * k)))] *)
Definition daysAgo (transactionCount : Z) : Z :=
  Z.max 1 (Z.min 365
    (Qfloor (Math_random *
       inject_Z (if 100 <? transactionCount then 30
                 else if 10 <? transactionCount then 90 else 180)))).

Definition getWalletActivity (address : string) : result Activity.t :=
  let failure message := Err ("Failed to fetch wallet activity: " ++ message) in
  match getTransactionCount address with
  | Err message => failure message
  | Ok transactionCount =>
      match getTransactionHistory address 5 with
      | Err message => failure message
      | Ok history =>
          let recentTransactions :=
            map (fun tx =>
                   {| Recent.hash := Record.hash tx;
                      Recent.type := Record.type tx;
                      Recent.amount := Record.value tx;
                      Recent.timestamp := Record.timestamp tx |})
                (History.transactions history) in
          let finish lastActivity :=
            Ok {| Activity.transactionCount := transactionCount;
                  Activity.lastActivity := lastActivity;
                  Activity.recentTransactions := recentTransactions |} in
          match History.transactions history with
          | newest :: _ => finish (Some (Record.timestamp newest))
          | [] =>
              if 0 <? transactionCount then
                match toISOString
                        (Date_now - daysAgo transactionCount * 24 * 60 * 60 * 1000)
                with
                | Some iso => finish (Some iso)
                | None => failure "Invalid time value"
                end
              else finish None
          end
      end
  end.

End Service.

(** ** The service as it is exported

    Each exported function first asks [getPublicClient(network)] for the
    client.  [clients.ts] is not among the sources; what it gives for the
    network of a call is a parameter: the client, or the error it throws
    (as it does for a network [getChain] does not know). *)

Module Exported.
Section Network.

Variable getPublicClient : result Client.t.
Variable toISOString : Z -> option string.
Variable Date_now : Z.
Variable Math_random : Q.

Definition getTransactionCount (address : string) : result Z :=
  match getPublicClient with
  | Ok client => Client.getTransactionCount client address
  | Err message => Err message
  end.

(** The client is asked for before the [try]: a failure to get it is not
    wrapped in the message of the [catch]. *)
Definition getTransactionHistory (address : string) (limit : Q)
    : result History.t :=
  match getPublicClient with
  | Ok client =>
      match Client.getBlockNumber client with
      | Ok latestBlock =>
          let blocksToSearch := Z.min 100 latestBlock in
          let startBlock := latestBlock - blocksToSearch in
          let transactions :=
            sort newest_first
              (search client toISOString window address limit
                 latestBlock startBlock []) in
          Ok {| History.transactions := transactions;
                History.totalCount := List.length transactions |}
      | Err message =>
          Err ("Failed to fetch transaction history: " ++ message)
      end
  | Err message => Err message
  end.

Definition getWalletActivity (address : string) : result Activity.t :=
  let failure message := Err ("Failed to fetch wallet activity: " ++ message) in
  match getTransactionCount address with
  | Err message => failure message
  | Ok transactionCount =>
      match getTransactionHistory address 5 with
      | Err message => failure message
      | Ok history =>
          let recentTransactions :=
            map (fun tx =>
                   {| Recent.hash := Record.hash tx;
                      Recent.type := Record.type tx;
                      Recent.amount := Record.value tx;
                      Recent.timestamp := Record.timestamp tx |})
                (History.transactions history) in
          let finish lastActivity :=
            Ok {| Activity.transactionCount := transactionCount;
                  Activity.lastActivity := lastActivity;
                  Activity.recentTransactions := recentTransactions |} in
          match History.transactions history with
          | newest :: _ => finish (Some (Record.timestamp newest))
          | [] =>
              if 0 <? transactionCount then
                match toISOString
                        (Date_now
                         - daysAgo Math_random transactionCount
                           * 24 * 60 * 60 * 1000)
                with
                | Some iso => finish (Some iso)
                | None => failure "Invalid time value"
                end
              else finish None
          end
      end
  end.

End Network.
End Exported.

(** *** Notions the further properties are stated with *)

(** The client that answers like [client] but, where [client] fails to
    return a block, returns a block without transactions. *)
Definition failures_as_empty (client : Client.t) : Client.t :=
  {| Client.getBlockNumber := Client.getBlockNumber client;
     Client.getBlock := fun blockNum =>
       match Client.getBlock client blockNum with
       | Ok block => Ok block
       | Err _ =>
           Ok {| Block.number := blockNum; Block.timestamp := 0;
                 Block.transactions := [] |}
       end;
     Client.getTransactionReceipt := Client.getTransactionReceipt client;
     Client.getTransactionCount := Client.getTransactionCount client |}.

(** A node that numbers the blocks it returns as they were asked for. *)
Definition numbers_blocks (client : Client.t) : Prop :=
  forall blockNum block,
    Client.getBlock client blockNum = Ok block ->
    Block.number block = blockNum.

(** ** Invariants of the scan *)

(** The array while block [b] and the blocks below it remain. *)
Definition above (b : Z) (l : list Record.t) : Prop :=
  descending l /\ forall x, In x l -> b <= Record.blockNumber x.

End Transactions.

(** * core/tools.ts: the [analyze_wallet] handler *)

Module Tools.

Local Open Scope Q_scope.

(** [x < y] on numbers; a comparison with [NaN] is false. *)
Definition lt (x y : option Q) : bool :=
  match x, y with
  | Some a, Some b => negb (Qle_bool b a)
  | _, _ => false
  end.

(** [if (c) riskScore += w;] *)
Definition add_if (c : bool) (w : Q) (riskScore : Q) : Q :=
  if c then riskScore + w else riskScore.

Section Handler.

(** The runtime's clock and parsers: [Date.now()],
    [new Date(s).getTime()] and [parseFloat(s)], with [None] for [NaN]. *)
Variable Date_now : Z.
Variable Date_getTime : string -> option Z.
Variable parseFloat : string -> option Q.

(** [(Date.now() - new Date(lastActivity).getTime()) / (1000*60*60*24)] *)
Definition daysSince (lastActivity : string) : option Q :=
  option_map
    (fun t => inject_Z (Date_now - t) / inject_Z (1000 * 60 * 60 * 24))
    (Date_getTime lastActivity).

(** The score as the handler leaves it after [Math.min(riskScore, 0.85)];
    [None] is [NaN]. *)
Definition riskScore (transactionCount : Z) (lastActivity : option string)
    (balance_sei : string) (address : string) : option Q :=
  let riskScore := 0.05 in
  let riskScore := add_if (10 <? transactionCount)%Z 0.05 riskScore in
  let riskScore := add_if (50 <? transactionCount)%Z 0.1 riskScore in
  let riskScore := add_if (100 <? transactionCount)%Z 0.15 riskScore in
  let riskScore := add_if (500 <? transactionCount)%Z 0.2 riskScore in
  let riskScore := add_if (1000 <? transactionCount)%Z 0.25 riskScore in
  let riskScore :=
    match lastActivity with
    | Some last =>
        if String.eqb last "" then riskScore
        else
          let daysSinceLastActivity := daysSince last in
          if lt daysSinceLastActivity (Some 1) then riskScore + 0.1
          else add_if (lt daysSinceLastActivity (Some 7)) 0.05 riskScore
    | None => riskScore
    end in
  let balanceValue := parseFloat balance_sei in
  let riskScore := add_if (lt (Some 1000) balanceValue) 0.1 riskScore in
  let riskScore := add_if (lt (Some 10000) balanceValue) 0.15 riskScore in
  let addressHash := JS.slice_last 4 address in
  match JS.parseInt addressHash 16 with
  | Some (JS.Finite n) =>
      let addressSeed := inject_Z n / 65535 in
      Some (Qmin (riskScore + addressSeed * 0.1) 0.85)
  | Some (JS.Infinity negative) =>
      (* out of reach, four characters denoting at most 0xffff (see
         [parseInt_suffix_finite]).  [Infinity] would be capped;
         [-Infinity] is no number [Q] holds *)
      if negative then None else Some 0.85
  | None => None
  end.

End Handler.

(** ** The [get_transaction_history] handler *)

(** What the handler serialises on success. *)
Module HistoryPayload.
Record t : Type := mk {
  address : string;
  totalTransactions : nat;
  transactions : list Transactions.Record.t
}.
End HistoryPayload.

(** [Math.min(Math.max(1, limit), 50)] *)
Definition validLimit (limit : Q) : Q := Qmin (Qmax 1 limit) 50.

(** The handler for the client of the network asked for; [limit] is [None]
    when the caller gave none.  [Err] is the reply flagged [isError]. *)
Definition get_transaction_history (client : Transactions.Client.t)
    (toISOString : Z -> option string) (address : string)
    (limit : option Q) : result HistoryPayload.t :=
  let limit := match limit with Some l => l | None => 10 end in
  let validLimit := validLimit limit in
  match Transactions.getTransactionHistory client toISOString address
          validLimit with
  | Ok history =>
      Ok {| HistoryPayload.address := address;
            HistoryPayload.totalTransactions :=
              Transactions.History.totalCount history;
            HistoryPayload.transactions :=
              map (fun tx =>
                     {| Transactions.Record.hash := Transactions.Record.hash tx;
                        Transactions.Record.from := Transactions.Record.from tx;
                        Transactions.Record.to := Transactions.Record.to tx;
                        Transactions.Record.value := Transactions.Record.value tx;
                        Transactions.Record.gasUsed := Transactions.Record.gasUsed tx;
                        Transactions.Record.gasPrice := Transactions.Record.gasPrice tx;
                        Transactions.Record.blockNumber :=
                          Transactions.Record.blockNumber tx;
                        Transactions.Record.timestamp :=
                          Transactions.Record.timestamp tx;
                        Transactions.Record.status := Transactions.Record.status tx;
                        Transactions.Record.type := Transactions.Record.type tx;
                        Transactions.Record.fee := Transactions.Record.fee tx |})
                  (Transactions.History.transactions history) |}
  | Err message => Err ("Error fetching transaction history: " ++ message)
  end.

(** ** [fetchRealTimeNFTActivity] *)

Module NFTActivity.
Record t : Type := mk {
  id : string;
  type : option string;
  collection : option string;
  tokenId : string;
  timestamp : string;
  price : string;
  from : option string;
  to : string;
  txHash : string;
  blockNumber : Z;
  source : string
}.
End NFTActivity.

Definition collections : list string :=
  [ "Pallet Exchange"; "SEI Ecosystem NFTs"; "Astroport NFTs";
    "DragonSwap Collections"; "SEI DeFi NFTs" ].

Definition types : list string := [ "mint"; "sale"; "transfer"; "listing" ].

(** [list[Math.floor(q * list.length)]]; [None] is [undefined]. *)
Definition pick (list : list string) (q : Q) : option string :=
  let index := Qfloor (q * inject_Z (Z.of_nat (List.length list))) in
  if (index <? 0)%Z then None else nth_error list (Z.to_nat index).

(** [n < limit] and [n >= limit] for a length [n]. *)
Definition fewer (limit : Q) (n : nat) : bool :=
  negb (Qle_bool limit (inject_Z (Z.of_nat n))).

Definition reached (limit : Q) (n : nat) : bool :=
  Qle_bool limit (inject_Z (Z.of_nat n)).

(** How a turn of the inner loop ends: the loop goes on, or it is left,
    by [break] or by a [throw] that the block's [catch] receives. *)
Inductive outcome : Type := Next | Leave.

Section Activity.

(** The outcome of [getPublicClient('sei')]; the runtime's [Date], the
    successive results of [Math.random()], and the rendering
    [(Number(value) / 1e18).toFixed(2)] of an amount. *)
Variable client : result Transactions.Client.t.
Variable toISOString : Z -> option string.
Variable Math_random : nat -> Q.
Variable toFixed2 : Z -> string.

(** The array and the number of calls of [Math.random()] made so far. *)
Definition state : Type := (list NFTActivity.t * nat)%type.

(** One turn of [for (const tx of block.transactions.slice(0, 10))]. *)
Definition scan_tx (limit : Q) (blockNum : Z) (block : Transactions.Block.t)
    (tx : Transactions.entry) (st : state) : state * outcome :=
  match tx with
  | Transactions.TxHash _ => (st, Next)
  | Transactions.TxObject txObj =>
      match Transactions.Tx.to txObj, Transactions.Tx.value txObj with
      | Some to, Some value =>
          if negb (String.eqb to "") && negb (value =? 0)%Z && (0 <? value)%Z
          then
            let '(nftActivities, calls) := st in
            let randomCollection := pick collections (Math_random calls) in
            let randomType := pick types (Math_random (S calls)) in
            let tokenId :=
              ("#" ++ JS.bigint_toString
                        (Qfloor (Math_random (S (S calls)) * 10000)))%string in
            match toISOString (Transactions.Block.timestamp block * 1000) with
            | Some iso =>
                let pushed :=
                  (nftActivities ++
                   [ {| NFTActivity.id := Transactions.Tx.hash txObj;
                        NFTActivity.type := randomType;
                        NFTActivity.collection := randomCollection;
                        NFTActivity.tokenId := tokenId;
                        NFTActivity.timestamp := iso;
                        NFTActivity.price :=
                          match randomType with
                          | Some "transfer"%string => "0"%string
                          | _ => toFixed2 value
                          end;
                        NFTActivity.from := Transactions.Tx.from txObj;
                        NFTActivity.to := to;
                        NFTActivity.txHash := Transactions.Tx.hash txObj;
                        NFTActivity.blockNumber := blockNum;
                        NFTActivity.source := "sei_blockchain" |} ])%list in
                ((pushed, S (S (S calls))),
                 if reached limit (List.length pushed) then Leave else Next)
            | None => ((nftActivities, S (S (S calls))), Leave)
            end
          else (st, Next)
      | _, _ => (st, Next)
      end
  end.

Fixpoint scan_txs (limit : Q) (blockNum : Z) (block : Transactions.Block.t)
    (txs : list Transactions.entry) (st : state) : state :=
  match txs with
  | [] => st
  | tx :: rest =>
      match scan_tx limit blockNum block tx st with
      | (st', Next) => scan_txs limit blockNum block rest st'
      | (st', Leave) => st'
      end
  end.

Definition scan_block (c : Transactions.Client.t) (limit : Q) (blockNum : Z)
    (st : state) : state :=
  match Transactions.Client.getBlock c blockNum with
  | Ok block =>
      scan_txs limit blockNum block
        (firstn 10 (Transactions.Block.transactions block)) st
  | Err _ => st
  end.

(** [for (blockNum = latestBlock; blockNum > startBlock &&
         nftActivities.length < limit; blockNum--)] *)
Fixpoint scan (c : Transactions.Client.t) (fuel : nat) (limit : Q)
    (blockNum startBlock : Z) (st : state) : state :=
  match fuel with
  | O => st
  | S fuel' =>
      if (startBlock <? blockNum)%Z && fewer limit (List.length (fst st))
      then scan c fuel' limit (blockNum - 1) startBlock
             (scan_block c limit blockNum st)
      else st
  end.

(** At most 50 blocks are scanned, so 50 turns suffice. *)
Definition blocks : nat := 50.

(** The helper never fails: every failure gives the empty array. *)
Definition fetchRealTimeNFTActivity (limit : Q) : list NFTActivity.t :=
  match client with
  | Ok c =>
      match Transactions.Client.getBlockNumber c with
      | Ok latestBlock =>
          let blocksToScan := Z.min 50 latestBlock in
          let startBlock := (latestBlock - blocksToScan)%Z in
          let nftActivities :=
            fst (scan c blocks limit latestBlock startBlock ([], 0%nat)) in
          match nftActivities with
          | [] => []
          | _ => nftActivities
          end
      | Err _ => []
      end
  | Err _ => []
  end.

End Activity.

(** ** Invariants of the activity scan *)

(** What holds of every entry of the array. *)
Definition well_formed (Math_random : nat -> Q) (toFixed2 : Z -> string)
    (lo hi : Z) (a : NFTActivity.t) : Prop :=
  (lo < NFTActivity.blockNumber a <= hi)%Z /\
  NFTActivity.to a <> ""%string /\
  NFTActivity.id a = NFTActivity.txHash a /\
  NFTActivity.source a = "sei_blockchain"%string /\
  (NFTActivity.type a = Some "transfer"%string ->
   NFTActivity.price a = "0"%string) /\
  ((forall call, (0 <= Math_random call)%Q /\ (Math_random call < 1)%Q) ->
   (exists t, NFTActivity.type a = Some t /\ In t types) /\
   (exists c, NFTActivity.collection a = Some c /\ In c collections)).

(** The array while block [b] and the blocks below it remain. *)
Definition shaped (Math_random : nat -> Q) (toFixed2 : Z -> string)
    (limit : Q) (lo hi b : Z) (l : list NFTActivity.t) : Prop :=
  (List.length l <= Transactions.capacity limit)%nat /\
  Forall (well_formed Math_random toFixed2 lo hi) l /\
  StronglySorted
    (fun x y => (NFTActivity.blockNumber y <= NFTActivity.blockNumber x)%Z)
    l /\
  (forall x, In x l -> (b <= NFTActivity.blockNumber x)%Z).

End Tools.

(** * The REST server: helpers of [unnamed/part_001] *)

Module Rest.

(** ** [serializeBigInt] *)

(** The values a service hands to a route: plain data.  The properties of
    an object are its own enumerable ones, in the order [for ... in] visits
    them, under distinct keys. *)
#[warnings="-register-all"]
Inductive value : Type :=
| VUndefined
| VNull
| VBool (b : bool)
| VNumber (q : Q)
| VString (s : string)
| VBigInt (z : Z)
| VArray (items : list value)
| VObject (props : list (string * value)).

Fixpoint serializeBigInt (obj : value) : value :=
  match obj with
  | VBigInt z => VString (JS.bigint_toString z)
  | VArray items => VArray (map serializeBigInt items)
  | VObject props =>
      VObject (map (fun kv => let '(key, v) := kv in
                              (key, serializeBigInt v)) props)
  | _ => obj
  end.

(** No [bigint] occurs in the value, at any depth. *)
Fixpoint bigint_free (v : value) : bool :=
  match v with
  | VBigInt _ => false
  | VArray items => forallb bigint_free items
  | VObject props => forallb (fun kv => bigint_free (snd kv)) props
  | _ => true
  end.

(** No property is named [__proto__], at any depth.  For that one name the
    assignment [res[key] = ...] sets the prototype of [res] instead of
    adding a property, which values as modelled here do not record. *)
Fixpoint plain (v : value) : bool :=
  match v with
  | VArray items => forallb plain items
  | VObject props =>
      forallb (fun kv => negb (String.eqb (fst kv) "__proto__")
                         && plain (snd kv)) props
  | _ => true
  end.

(** ** [generateSessionId] *)

(** [x | 0]: truncation to an integer, wrapped to 32 bits. *)
Definition or_zero (x : Q) : Z :=
  let t := Z.quot (Qnum x) (Zpos (Qden x)) in
  (t + 2147483648) mod 4294967296 - 2147483648.

(** [v.toString(16)] for an integer [v]. *)
Definition toString16 (v : Z) : string :=
  HexadecimalString.NilZero.string_of_int (Z.to_hex_int v).

Section Session.

(** The successive results of [Math.random()]. *)
Variable Math_random : nat -> Q.

(** The callback given to [replace], at the call numbered [call]. *)
Definition replacement (c : ascii) (call : nat) : string :=
  let r := or_zero (Math_random call * 16) in
  let v := if Ascii.eqb c "x" then r else Z.lor (Z.land r 3) 8 in
  toString16 v.

(** [template.replace(/[xy]/g, callback)]: every [x] and [y], from left to
    right, gives way to what the callback returns for it. *)
Fixpoint replace_xy (template : string) (call : nat) : string :=
  match template with
  | EmptyString => EmptyString
  | String c rest =>
      if Ascii.eqb c "x" || Ascii.eqb c "y"
      then append (replacement c call) (replace_xy rest (S call))
      else String c (replace_xy rest call)
  end.

Definition generateSessionId : string :=
  replace_xy "xxxxxxxx-xxxx-4xxx-yxxx-xxxxxxxxxxxx" 0.

End Session.

(** The shape of a version-4 UUID: the pattern
    [/^[0-9a-f]{8}-[0-9a-f]{4}-4[0-9a-f]{3}-[89ab][0-9a-f]{3}-[0-9a-f]{12}$/]. *)
Definition hex : JS.atom := JS.Class [("0", "9"); ("a", "f")]%char.
Definition variant : JS.atom := JS.Class [("8", "9"); ("a", "b")]%char.

Definition uuid_v4 : list JS.atom :=
  (repeat hex 8 ++ JS.lits "-" ++ repeat hex 4 ++ JS.lits "-4" ++
   repeat hex 3 ++ JS.lits "-" ++ [variant] ++ repeat hex 3 ++
   JS.lits "-" ++ repeat hex 12)%list.

(** The keys of an object and the length of an array, at the top. *)
Definition keys_of (v : value) : list string :=
  match v with
  | VObject props => map fst props
  | _ => []
  end.

Definition length_of (v : value) : nat :=
  match v with
  | VArray items => List.length items
  | _ => 0
  end.

(** The pattern a template stands for: any hexadecimal digit for [x], one
    of [8 9 a b] for [y], the character itself otherwise. *)
Fixpoint pattern_of (template : string) : list JS.atom :=
  match template with
  | EmptyString => []
  | String c rest =>
      (if Ascii.eqb c "x" then hex
       else if Ascii.eqb c "y" then variant
       else JS.Lit c) :: pattern_of rest
  end.

End Rest.

(** * Concrete chains used in the examples *)

Module Scenario.
Import Transactions.

Definition me : string := "0x000000000000000000000000000000000000dEaD".
Definition peer : string := "0x1111111111111111111111111111111111111111".

Definition word (hex : string) : string :=
  append (string_of_list_ascii (repeat "0"%char (64 - String.length hex))) hex.

(** A plain payment received by [me]. *)
Definition payment (hash : string) : Tx.t :=
  {| Tx.hash := hash; Tx.from := Some peer;
     Tx.to := Some "0x000000000000000000000000000000000000DEAD";
     Tx.input := Some "0x"; Tx.gasPrice := Some 1000000000;
     Tx.value := Some 5 |}.

(** A swap call whose arguments happen to contain the bytes [a9059cbb]. *)
Definition swap_with_transfer_bytes : Tx.t :=
  {| Tx.hash := "0xaa"; Tx.from := Some me; Tx.to := Some peer;
     Tx.input := Some ("0x7ff36ab5" ++ word "a9059cbb" ++ word "80");
     Tx.gasPrice := Some 1000000000; Tx.value := Some 0 |}.

(** A call of an unlisted function whose arguments contain [38ed1739]. *)
Definition unknown_with_swap_bytes : Tx.t :=
  {| Tx.hash := "0xbb"; Tx.from := Some me; Tx.to := Some peer;
     Tx.input := Some ("0x12345678" ++ word "38ed1739");
     Tx.gasPrice := Some 1000000000; Tx.value := Some 0 |}.

(** A contract creation that carries no call data. *)
Definition creation_without_data : Tx.t :=
  {| Tx.hash := "0xcc"; Tx.from := Some me; Tx.to := None;
     Tx.input := Some "0x"; Tx.gasPrice := Some 1000000000;
     Tx.value := Some 0 |}.

(** An address no transaction mentions. *)
Definition stranger : string := "0x2222222222222222222222222222222222222222".

Definition receipts (hash : string) : result Receipt.t :=
  Ok {| Receipt.gasUsed := 21000; Receipt.status := "success" |}.

(** Height 1000; [me] has sent nothing (nonce 0) and received three
    payments in the latest block. *)
Definition receiving_only : Client.t :=
  {| Client.getBlockNumber := Ok 1000;
     Client.getBlock := fun n =>
       Ok {| Block.number := n; Block.timestamp := 1700000000;
             Block.transactions :=
               if n =? 1000
               then [ TxObject (payment "0x01"); TxObject (payment "0x02");
                      TxObject (payment "0x03") ]
               else [] |};
     Client.getTransactionReceipt := receipts;
     Client.getTransactionCount := fun _ => Ok 0 |}.

(** Height 1000; the latest block holds three calls sent by [me]. *)
Definition calling : Client.t :=
  {| Client.getBlockNumber := Ok 1000;
     Client.getBlock := fun n =>
       Ok {| Block.number := n; Block.timestamp := 1700000000;
             Block.transactions :=
               if n =? 1000
               then [ TxObject swap_with_transfer_bytes;
                      TxObject unknown_with_swap_bytes;
                      TxObject creation_without_data ]
               else [] |};
     Client.getTransactionReceipt := receipts;
     Client.getTransactionCount := fun _ => Ok 3 |}.

(** The clock and the draw of [Math.random] in the examples. *)
Definition now : Z := 1700000100000.
Definition draw : Q := 1 # 2.

(** The histories the examples look at. *)
Definition received (limit : Q) : History.t :=
  history_of (getTransactionHistory receiving_only JS.toISOString me limit).

Definition called : History.t :=
  history_of (getTransactionHistory calling JS.toISOString me 10).

Definition first_of (h : History.t) : Record.t :=
  hd {| Record.hash := ""; Record.from := ""; Record.to := None;
        Record.value := ""; Record.gasUsed := ""; Record.gasPrice := "";
        Record.blockNumber := 0; Record.timestamp := "";
        Record.status := success; Record.type := other; Record.fee := "" |}
     (History.transactions h).

(** A draw of [Math.random()] that is one half at every call, a rendering
    of amounts, and the activity scan of the chain [receiving_only]. *)
Definition halves (call : nat) : Q := 1 # 2.

Definition in_sei (value : Z) : string :=
  (JS.bigint_toString (value / 1000000000000000000) ++ "."
   ++ JS.pad 2 (value / 10000000000000000 mod 100))%string.

Definition activities : list Tools.NFTActivity.t :=
  Tools.fetchRealTimeNFTActivity (Ok receiving_only) JS.toISOString
    halves in_sei 10.


End Scenario.

(** * Properties *)

(** ** The runtime: [parseInt] *)

Module JSProofs.

(** Up to 2^53 in absolute value every integer is a double. *)
Lemma round_to_double_exact (n : Z) :
  Z.abs n <= 2 ^ 53 -> JS.round_to_double n = JS.Finite n.
Proof.
  intros H. unfold JS.round_to_double.
  destruct (Z.abs n <? 2 ^ 53) eqn:E; [reflexivity|].
  apply Z.ltb_ge in E.
  assert (n = 2 ^ 53 \/ n = - 2 ^ 53) as [-> | ->] by lia;
    vm_compute; reflexivity.
Qed.

Lemma parseInt_exact (s : string) (radix n : Z) :
  JS.mathInt s radix = Some n -> Z.abs n <= 2 ^ 53 ->
  JS.parseInt s radix = Some (JS.Finite n).
Proof.
  intros E H. unfold JS.parseInt. rewrite E. simpl.
  now rewrite round_to_double_exact.
Qed.

Lemma parseInt_NaN (s : string) (radix : Z) :
  JS.mathInt s radix = None <-> JS.parseInt s radix = None.
Proof.
  unfold JS.parseInt. destruct (JS.mathInt s radix); simpl;
    split; congruence.
Qed.

End JSProofs.

(** ** Address validation *)

Module UtilsProofs.
Import Utils.

Lemma hex_class_chars (c : ascii) :
  JS.atom_accepts hex_class c = char_in hex_digits c.
Proof.
  destruct c as [[] [] [] [] [] [] [] []]; reflexivity.
Qed.

Lemma bech_class_chars (c : ascii) :
  JS.atom_accepts bech_class c = char_in bech_chars c.
Proof.
  destruct c as [[] [] [] [] [] [] [] []]; reflexivity.
Qed.

Lemma test_lit (c : ascii) (re : list JS.atom) (s : string) :
  JS.test (JS.Lit c :: re) s = true <->
  exists s', s = String c s' /\ JS.test re s' = true.
Proof.
  split.
  - destruct s as [|d s']; simpl; [discriminate|].
    intros H. apply andb_true_iff in H as [Hc Ht].
    apply Ascii.eqb_eq in Hc. subst d. now exists s'.
  - intros (s' & -> & Ht). simpl. now rewrite Ascii.eqb_refl, Ht.
Qed.

Lemma test_repeat (a : JS.atom) (n : nat) (s : string) :
  JS.test (repeat a n) s = true <->
  String.length s = n /\
  forall c, In c (list_ascii_of_string s) -> JS.atom_accepts a c = true.
Proof.
  revert s. induction n as [|n IH]; intros s; simpl.
  - destruct s; simpl; split.
    + intros _. split; [reflexivity | intros c []].
    + reflexivity.
    + discriminate.
    + intros [E _]. discriminate.
  - destruct s as [|c s']; simpl.
    + split; [discriminate | intros [E _]; discriminate].
    + rewrite andb_true_iff, IH. split.
      * intros (Hc & Hl & Hall). split; [now f_equal|].
        intros d [<- | Hd]; auto.
      * intros (Hl & Hall). injection Hl as Hl. repeat split; auto.
Qed.

Lemma evm_regex_spec (s : string) :
  JS.test evm_regex s = true <-> valid_evm_address s.
Proof.
  unfold evm_regex, valid_evm_address, all_in.
  change (JS.lits "0x" ++ repeat hex_class 40)%list
    with (JS.Lit "0" :: JS.Lit "x" :: repeat hex_class 40)%char.
  rewrite test_lit. split.
  - intros (s1 & -> & H). apply test_lit in H as (h & -> & H).
    apply test_repeat in H as [Hl Hall]. exists h. repeat split; auto.
    intros c Hc. rewrite <- hex_class_chars. auto.
  - intros (h & -> & Hl & Hall). eexists. split; [reflexivity|].
    apply test_lit. eexists. split; [reflexivity|].
    apply test_repeat. split; auto.
    intros c Hc. rewrite hex_class_chars. auto.
Qed.

Lemma sei_regex_spec (s : string) :
  JS.test sei_regex s = true <-> valid_sei_address s.
Proof.
  unfold sei_regex, valid_sei_address, all_in.
  change (JS.lits "sei1" ++ repeat bech_class 38)%list
    with (JS.Lit "s" :: JS.Lit "e" :: JS.Lit "i" :: JS.Lit "1"
            :: repeat bech_class 38)%char.
  split.
  - intros H.
    apply test_lit in H as (s1 & -> & H). apply test_lit in H as (s2 & -> & H).
    apply test_lit in H as (s3 & -> & H). apply test_lit in H as (b & -> & H).
    apply test_repeat in H as [Hl Hall]. exists b. repeat split; auto.
    intros c Hc. rewrite <- bech_class_chars. auto.
  - intros (b & -> & Hl & Hall).
    do 4 (apply test_lit; eexists; split; [reflexivity|]).
    apply test_repeat. split; auto.
    intros c Hc. rewrite bech_class_chars. auto.
Qed.

(** C4.  A string of one of the two valid shapes is returned unchanged by
    [validateAddress]; every other string is rejected with the
    invalid-address error.  The function consults nothing but its argument,
    so the rejection precedes any request to a node. *)
Theorem validateAddress_accepts_exactly_valid (address : string) :
  (valid_evm_address address \/ valid_sei_address address ->
   validateAddress address = Ok address) /\
  (~ (valid_evm_address address \/ valid_sei_address address) ->
   validateAddress address = Err (InvalidAddressError address)).
Proof.
  unfold validateAddress.
  destruct (JS.test evm_regex address) eqn:He.
  - split; [reflexivity|]. intros H. exfalso. apply H. left.
    now apply evm_regex_spec.
  - destruct (JS.test sei_regex address) eqn:Hs.
    + split; [reflexivity|]. intros H. exfalso. apply H. right.
      now apply sei_regex_spec.
    + split; [|reflexivity]. intros [H|H].
      * apply evm_regex_spec in H. congruence.
      * apply sei_regex_spec in H. congruence.
Qed.

Lemma validateAddress_accepts_exactly_valid_witness :
  validateAddress "0x000000000000000000000000000000000000dEaD"
    = Ok "0x000000000000000000000000000000000000dEaD" /\
  validateAddress "sei1qypqxpq9qcrsszg2pvxq6rs0zqg3yyc5lzv7xu"
    = Ok "sei1qypqxpq9qcrsszg2pvxq6rs0zqg3yyc5lzv7xu" /\
  validateAddress "0x0000000000000000000000000000000000dEaD"
    = Err (InvalidAddressError "0x0000000000000000000000000000000000dEaD").
Proof.
  split; [|split].
  - apply (proj1 (validateAddress_accepts_exactly_valid _)).
    left. apply evm_regex_spec. vm_compute. reflexivity.
  - apply (proj1 (validateAddress_accepts_exactly_valid _)).
    right. apply sei_regex_spec. vm_compute. reflexivity.
  - apply (proj2 (validateAddress_accepts_exactly_valid _)).
    intros [H|H].
    + apply evm_regex_spec in H. vm_compute in H. discriminate.
    + apply sei_regex_spec in H. vm_compute in H. discriminate.
Defined.

End UtilsProofs.

(** ** Network registry *)

Module ChainsProofs.
Import Chains.

Lemma lower_char_idem (c : ascii) :
  JS.lower_char (JS.lower_char c) = JS.lower_char c.
Proof.
  destruct c as [[] [] [] [] [] [] [] []]; reflexivity.
Qed.

Lemma toLowerCase_idem (s : string) :
  JS.toLowerCase (JS.toLowerCase s) = JS.toLowerCase s.
Proof.
  induction s as [|c s IH]; simpl; [reflexivity|].
  now rewrite lower_char_idem, IH.
Qed.

Lemma mem_In (k : string) (l : list string) :
  JS.mem k l = true <-> In k l.
Proof.
  unfold JS.mem. rewrite existsb_exists. split.
  - intros (x & Hx & E). apply String.eqb_eq in E. now subst.
  - intros H. exists k. split; [assumption | apply String.eqb_refl].
Qed.

Lemma own_known_alias (name : string) :
  known_alias name = false -> JS.own networkNameMap name = None.
Proof.
  unfold known_alias, JS.mem, JS.keys, networkNameMap. simpl.
  intros H. repeat (apply orb_false_iff in H as [-> H]). reflexivity.
Qed.

(** After lower-casing, the only members of [Object.prototype] a name can
    hit are the two that are written in lower case. *)
Lemma lowered_prototype_name (s : string) :
  JS.mem (JS.toLowerCase s) JS.Object_prototype_names = true ->
  JS.toLowerCase s = "constructor" \/ JS.toLowerCase s = "__proto__".
Proof.
  intros H. apply mem_In in H. pose proof (toLowerCase_idem s) as I.
  simpl in H.
  repeat (destruct H as [H|H];
          [ (now left) || (now right) ||
            (rewrite <- H in I; vm_compute in I; discriminate) | ]).
  destruct H.
Qed.

(** Every alias resolves to its chain id however the input is cased. *)
Lemma resolveChainId_alias (s alias : string) (id : Z) :
  In (alias, id) networkNameMap ->
  JS.toLowerCase s = alias ->
  resolveChainId (IdStr s) = Num id.
Proof.
  intros H E. unfold resolveChainId. rewrite E.
  simpl in H. destruct H as [H|[H|[H|[]]]];
    injection H as <- <-; reflexivity.
Qed.

Lemma resolveChainId_casing (s s' : string) :
  JS.toLowerCase s = JS.toLowerCase s' ->
  resolveChainId (IdStr s) = resolveChainId (IdStr s').
Proof.
  intros E. unfold resolveChainId. now rewrite E.
Qed.

(** A string that is neither an alias nor, once lower-cased, the name of a
    member of [Object.prototype] resolves to the number [parseInt] reads at
    its start, and to the default chain id when there is none. *)
Lemma resolveChainId_unknown (s : string) :
  known_alias (JS.toLowerCase s) = false ->
  JS.mem (JS.toLowerCase s) JS.Object_prototype_names = false ->
  resolveChainId (IdStr s) =
  match JS.parseInt (JS.toLowerCase s) 0 with
  | Some (JS.Finite parsedId) => Num parsedId
  | Some (JS.Infinity negative) => Infinite negative
  | None => Num DEFAULT_CHAIN_ID
  end.
Proof.
  intros Ha Hp. unfold resolveChainId, JS.has, JS.get.
  now rewrite (own_known_alias _ Ha), Hp.
Qed.

(** C5, the part the code keeps, and where it fails.  Known aliases resolve
    to one chain id under every casing, and an unknown, non-numeric string
    falls back to the default chain id unless its lower-cased form is
    [constructor] or [__proto__].  For these two, [networkName in
    networkNameMap] holds through the prototype, and the value returned is
    that inherited member, not the default chain id. *)
Theorem resolveChainId_inherited_name_not_default :
  known_alias (JS.toLowerCase "constructor") = false /\
  JS.parseInt (JS.toLowerCase "constructor") 0 = None /\
  resolveChainId (IdStr "constructor") = ProtoMember "constructor" /\
  resolveChainId (IdStr "constructor") <> Num DEFAULT_CHAIN_ID /\
  resolveChainId (IdStr "__proto__") = ProtoMember "__proto__".
Proof.
  repeat split; try reflexivity. discriminate.
Qed.

(** What the code does keep of the resolution of names: casing never
    matters, aliases resolve to their chain id, and the fallback to the
    default is taken by every unknown non-numeric string other than the two
    inherited names. *)
Theorem resolveChainId_case_insensitive_and_fallback (s : string) :
  (forall alias id, In (alias, id) networkNameMap ->
     JS.toLowerCase s = alias -> resolveChainId (IdStr s) = Num id) /\
  (forall s', JS.toLowerCase s = JS.toLowerCase s' ->
     resolveChainId (IdStr s) = resolveChainId (IdStr s')) /\
  (known_alias (JS.toLowerCase s) = false ->
   JS.parseInt (JS.toLowerCase s) 0 = None ->
   JS.toLowerCase s <> "constructor" ->
   JS.toLowerCase s <> "__proto__" ->
   resolveChainId (IdStr s) = Num DEFAULT_CHAIN_ID).
Proof.
  split; [|split].
  - intros alias id. apply resolveChainId_alias.
  - apply resolveChainId_casing.
  - intros Ha Hp Hc Hq.
    rewrite resolveChainId_unknown, Hp; auto.
    destruct (JS.mem (JS.toLowerCase s) JS.Object_prototype_names) eqn:M;
      [|reflexivity].
    apply lowered_prototype_name in M as [M|M]; contradiction.
Qed.

Lemma resolveChainId_case_insensitive_and_fallback_witness :
  resolveChainId (IdStr "SEI-TestNet") = Num 1328 /\
  resolveChainId (IdStr "Sei") = resolveChainId (IdStr "sEI") /\
  resolveChainId (IdStr "Arctic") = Num DEFAULT_CHAIN_ID.
Proof.
  split; [|split].
  - apply (proj1 (resolveChainId_case_insensitive_and_fallback "SEI-TestNet")
             "sei-testnet" 1328).
    + simpl. right. left. reflexivity.
    + reflexivity.
  - apply (proj1 (proj2 (resolveChainId_case_insensitive_and_fallback "Sei"))).
    reflexivity.
  - apply (proj2 (proj2 (resolveChainId_case_insensitive_and_fallback "Arctic")));
      simpl; try reflexivity; discriminate.
Defined.

(** C6 as stated fails twice over.  A numeric string is no alias, and
    [getChain] throws for it, but [resolveChainId] returns the parsed
    number, not the default; and for [constructor] the lookup in [getChain]
    is truthy through the prototype, so nothing is thrown. *)
Lemma getChain_throws_resolveChainId_default_counterexample :
  ~ (forall s, known_alias (JS.toLowerCase s) = false ->
       getChain (IdStr s) = Err (UnsupportedNetworkError s) /\
       resolveChainId (IdStr s) = Num DEFAULT_CHAIN_ID) /\
  (known_alias (JS.toLowerCase "123") = false /\
   getChain (IdStr "123") = Err (UnsupportedNetworkError "123") /\
   resolveChainId (IdStr "123") = Num 123) /\
  (known_alias (JS.toLowerCase "constructor") = false /\
   getChain (IdStr "constructor") = Ok sei).
Proof.
  split; [|repeat split].
  intros H. destruct (H "123" eq_refl) as [_ H']. discriminate H'.
Qed.

(** C6, amended.  For a string that is not an alias (and does not lower-case
    to the name of a member of [Object.prototype]), [getChain] throws the
    unsupported-network error, while [resolveChainId] does not fail: it
    returns the number [parseInt] reads at the start of the string, or the
    default chain id when there is none.  That number is the integer the
    string starts with whenever this integer is at most 2^53 in absolute
    value; beyond, it is the double nearest to it, or an infinity. *)
Theorem getChain_throws_where_resolveChainId_recovers (s : string) :
  known_alias (JS.toLowerCase s) = false ->
  JS.mem (JS.toLowerCase s) JS.Object_prototype_names = false ->
  getChain (IdStr s) = Err (UnsupportedNetworkError s) /\
  resolveChainId (IdStr s) =
    match JS.parseInt (JS.toLowerCase s) 0 with
    | Some (JS.Finite parsedId) => Num parsedId
    | Some (JS.Infinity negative) => Infinite negative
    | None => Num DEFAULT_CHAIN_ID
    end /\
  (forall n, JS.mathInt (JS.toLowerCase s) 0 = Some n ->
     (Z.abs n <= 2 ^ 53 -> resolveChainId (IdStr s) = Num n) /\
     resolveChainId (IdStr s) =
       match JS.round_to_double n with
       | JS.Finite parsedId => Num parsedId
       | JS.Infinity negative => Infinite negative
       end) /\
  (JS.mathInt (JS.toLowerCase s) 0 = None ->
   resolveChainId (IdStr s) = Num DEFAULT_CHAIN_ID).
Proof.
  intros Ha Hp. split; [|split; [|split]].
  - unfold getChain, JS.get. now rewrite (own_known_alias _ Ha), Hp.
  - now apply resolveChainId_unknown.
  - intros n E. rewrite resolveChainId_unknown by assumption.
    unfold JS.parseInt. rewrite E. cbn [option_map].
    split; [|reflexivity].
    intros H. now rewrite JSProofs.round_to_double_exact.
  - intros E. rewrite resolveChainId_unknown by assumption.
    apply JSProofs.parseInt_NaN in E. now rewrite E.
Qed.

Lemma getChain_throws_where_resolveChainId_recovers_witness :
  (getChain (IdStr "Arctic") = Err (UnsupportedNetworkError "Arctic") /\
   resolveChainId (IdStr "Arctic") = Num DEFAULT_CHAIN_ID) /\
  (getChain (IdStr "123") = Err (UnsupportedNetworkError "123") /\
   resolveChainId (IdStr "123") = Num 123) /\
  (getChain (IdStr "9007199254740993")
     = Err (UnsupportedNetworkError "9007199254740993") /\
   resolveChainId (IdStr "9007199254740993") = Num 9007199254740992).
Proof.
  split; [|split].
  - destruct (getChain_throws_where_resolveChainId_recovers "Arctic")
      as (G & _ & _ & D); [reflexivity | reflexivity |].
    split; [exact G | apply D; reflexivity].
  - destruct (getChain_throws_where_resolveChainId_recovers "123")
      as (G & _ & N & _); [reflexivity | reflexivity |].
    split; [exact G|].
    apply (proj1 (N 123 eq_refl)). vm_compute. discriminate.
  - destruct (getChain_throws_where_resolveChainId_recovers
                "9007199254740993")
      as (G & _ & N & _); [reflexivity | reflexivity |].
    split; [exact G|].
    exact (proj2 (N 9007199254740993 eq_refl)).
Defined.

(** C7 as stated fails for the function of that name in
    [services/network.ts], the one the REST route serves: its list names
    the hyphenated alias [sei-testnet]. *)
Lemma getSupportedNetworks_services_counterexample :
  In "sei-testnet"
     (map Network.name (Network.networks Network.getSupportedNetworks)) /\
  known_alias "sei-testnet" = true /\
  JS.includes "sei-testnet" "-" = true.
Proof.
  repeat split. simpl. right. left. reflexivity.
Qed.

(** C7, amended.  The registry's [getSupportedNetworks] (chains.ts) returns
    no name containing a hyphen: it lists [sei] and leaves out
    [sei-testnet] and [sei-devnet]. *)
Theorem getSupportedNetworks_registry_no_hyphen :
  Forall (fun name => JS.includes name "-" = false) getSupportedNetworks /\
  Forall (fun name => known_alias name = true) getSupportedNetworks /\
  In "sei" getSupportedNetworks /\
  ~ In "sei-testnet" getSupportedNetworks /\
  ~ In "sei-devnet" getSupportedNetworks.
Proof.
  assert (G : forall name, In name getSupportedNetworks ->
                JS.includes name "-" = false /\ In name (JS.keys networkNameMap)).
  { intros name H. unfold getSupportedNetworks in H.
    apply filter_In in H as [Hk Hf]. split; [|assumption].
    now apply negb_true_iff in Hf. }
  repeat split.
  - apply Forall_forall. intros name H. apply (G name H).
  - apply Forall_forall. intros name H. apply mem_In, (G name H).
  - unfold getSupportedNetworks. apply filter_In. split; [|reflexivity].
    simpl. left. reflexivity.
  - intros H. apply G in H as [H _]. discriminate H.
  - intros H. apply G in H as [H _]. discriminate H.
Qed.

End ChainsProofs.

(** ** Transaction history and wallet activity *)

Module TransactionsProofs.
Import Transactions.

(** *** Decimal numerals *)

Lemma BigInt_of_toString (z : Z) :
  JS.BigInt_of_string (JS.bigint_toString z) = Some z.
Proof.
  unfold JS.BigInt_of_string, JS.bigint_toString.
  rewrite NilZero.isi.
  - simpl. f_equal. apply DecimalZ.of_to.
  - destruct z; simpl; try discriminate.
    intros [= E]. now apply (Unsigned.to_uint_nonnil p).
  - destruct z; simpl; try discriminate.
    intros [= E]. now apply (Unsigned.to_uint_nonnil p).
Qed.

Lemma BigInt_gasPrice (g : option Z) :
  JS.BigInt_of_string (toString (gasPrice_or_0 g)) = BigInt (gasPrice_or_0 g).
Proof.
  unfold gasPrice_or_0. destruct g as [p|]; [|reflexivity].
  destruct (p =? 0); [reflexivity|]. simpl. apply BigInt_of_toString.
Qed.

(** *** The limit *)

Lemma below_capacity (limit : Q) (l : list Record.t) :
  below limit l = true -> (S (List.length l) <= capacity limit)%nat.
Proof.
  unfold below, capacity. intros H. apply negb_true_iff in H.
  assert (L : (inject_Z (Z.of_nat (List.length l)) < limit)%Q).
  { apply Qnot_le_lt. intros C. apply Qle_bool_iff in C. congruence. }
  assert (C : (inject_Z (Z.of_nat (List.length l))
               < inject_Z (Qceiling limit))%Q).
  { eapply Qlt_le_trans; [exact L | apply Qle_ceiling]. }
  rewrite <- Zlt_Qlt in C. lia.
Qed.

Lemma capacity_whole (n : nat) (limit : Q) :
  (limit == inject_Z (Z.of_nat n))%Q -> capacity limit = n.
Proof.
  intros E. unfold capacity. rewrite E, Qceiling_Z. apply Nat2Z.id.
Qed.

(** *** Sorting *)

Lemma insert_perm (x : Record.t) (l : list Record.t) :
  Permutation (x :: l) (insert newest_first x l).
Proof.
  induction l as [|y r IH]; simpl; [apply Permutation_refl|].
  destruct (0 <? newest_first x y).
  - eapply perm_trans; [apply perm_swap|]. now apply perm_skip.
  - apply Permutation_refl.
Qed.

Lemma sort_perm (l : list Record.t) :
  Permutation l (sort newest_first l).
Proof.
  induction l as [|x r IH]; simpl; [apply perm_nil|].
  eapply perm_trans; [apply perm_skip, IH | apply insert_perm].
Qed.

Lemma insert_descending (x : Record.t) (l : list Record.t) :
  descending l -> descending (insert newest_first x l).
Proof.
  unfold descending. induction l as [|y r IH]; simpl; intros H.
  - constructor; constructor.
  - inversion H as [|? ? Hr Hy]; subst.
    destruct (0 <? newest_first x y) eqn:C.
    + apply Z.ltb_lt in C. unfold newest_first in C.
      constructor; [now apply IH|].
      apply Forall_forall. intros z Hz.
      apply (Permutation_in _ (Permutation_sym (insert_perm x r))) in Hz.
      destruct Hz as [<- | Hz].
      * unfold newer_or_same. lia.
      * rewrite Forall_forall in Hy. now apply Hy.
    + apply Z.ltb_ge in C. unfold newest_first in C.
      constructor; [assumption|].
      constructor; [unfold newer_or_same; lia|].
      rewrite Forall_forall in Hy |- *. intros z Hz.
      specialize (Hy z Hz). unfold newer_or_same in *. lia.
Qed.

Lemma sort_descending (l : list Record.t) :
  descending (sort newest_first l).
Proof.
  induction l as [|x r IH]; simpl.
  - constructor.
  - now apply insert_descending.
Qed.

(** *** The two loops *)

Section Loops.

Variable client : Client.t.
Variable toISOString : Z -> option string.
Variable address : string.
Variable limit : Q.

(** A property of the array that every push keeps. *)
Variable P : list Record.t -> Prop.
Hypothesis P_push : forall l r,
  P l -> below limit l = true -> collected client toISOString address r ->
  P (l ++ [r])%list.

Lemma visit_all_keeps (blockNum : Z) (block : Block.t) (txs : list entry) :
  Client.getBlock client blockNum = Ok block ->
  incl txs (Block.transactions block) ->
  forall l, P l -> P (visit_all client toISOString address limit block txs l).
Proof.
  intros Hb. induction txs as [|tx rest IH]; intros Hin l Hl; simpl.
  - assumption.
  - assert (Hrest : incl rest (Block.transactions block)).
    { intros x Hx. apply Hin. now right. }
    destruct tx as [h|txObj]; simpl.
    + now apply IH.
    + destruct (isInvolved txObj address) eqn:Hi; simpl; [|now apply IH].
      destruct (below limit l) eqn:Hlim; [|now apply IH].
      destruct (record_of client toISOString block txObj) as [r|] eqn:Hr;
        [|assumption].
      apply IH; [assumption|]. apply P_push; try assumption.
      exists blockNum, block, txObj. repeat split; try assumption.
      apply Hin. now left.
Qed.

Lemma search_block_keeps (blockNum : Z) (l : list Record.t) :
  P l -> P (search_block client toISOString address limit blockNum l).
Proof.
  intros Hl. unfold search_block.
  destruct (Client.getBlock client blockNum) as [block|] eqn:Hb;
    [|assumption].
  eapply visit_all_keeps; eauto. apply incl_refl.
Qed.

Lemma search_keeps (fuel : nat) :
  forall blockNum startBlock l,
    P l ->
    P (search client toISOString fuel address limit blockNum startBlock l).
Proof.
  induction fuel as [|fuel IH]; intros blockNum startBlock l Hl; simpl.
  - assumption.
  - destruct ((startBlock <? blockNum) && below limit l); [|assumption].
    apply IH. now apply search_block_keeps.
Qed.

End Loops.

(** The loop over blocks stops by its own condition: turns beyond the
    distance to [startBlock] change nothing. *)
Lemma search_fuel client toISOString address limit (fuel : nat) :
  forall blockNum startBlock l (extra : nat),
    blockNum - startBlock <= Z.of_nat fuel ->
    search client toISOString (fuel + extra) address limit blockNum startBlock l
    = search client toISOString fuel address limit blockNum startBlock l.
Proof.
  induction fuel as [|fuel IH]; intros blockNum startBlock l extra H.
  - simpl. destruct extra as [|extra]; [reflexivity|]. simpl.
    replace (startBlock <? blockNum) with false; [reflexivity|].
    symmetry. apply Z.ltb_ge. lia.
  - simpl. destruct ((startBlock <? blockNum) && below limit l);
      [|reflexivity].
    apply IH. lia.
Qed.

Lemma window_suffices client toISOString address limit
    (latestBlock : Z) (extra : nat) :
  let startBlock := latestBlock - Z.min 100 latestBlock in
  search client toISOString (window + extra) address limit
    latestBlock startBlock []
  = search client toISOString window address limit latestBlock startBlock [].
Proof.
  intros startBlock. apply search_fuel. unfold startBlock, window. lia.
Qed.

(** *** What every history satisfies *)

Lemma history_shape client toISOString address limit h :
  getTransactionHistory client toISOString address limit = Ok h ->
  (List.length (History.transactions h) <= capacity limit)%nat /\
  Forall (collected client toISOString address) (History.transactions h) /\
  descending (History.transactions h) /\
  History.totalCount h = List.length (History.transactions h).
Proof.
  unfold getTransactionHistory.
  destruct (Client.getBlockNumber client) as [latestBlock|]; [|discriminate].
  assert (I : let found :=
                 search client toISOString window address limit latestBlock
                   (latestBlock - Z.min 100 latestBlock) [] in
              (List.length found <= capacity limit)%nat /\
              Forall (collected client toISOString address) found).
  { apply (search_keeps client toISOString address limit
             (fun l => (List.length l <= capacity limit)%nat /\
                       Forall (collected client toISOString address) l)).
    - intros l r [Hlen Hall] Hlim Hr. split.
      + rewrite length_app. simpl. apply below_capacity in Hlim. lia.
      + apply Forall_app. split; [assumption|]. now constructor.
    - split; [apply Nat.le_0_l | constructor]. }
  revert I.
  generalize (search client toISOString window address limit latestBlock
                (latestBlock - Z.min 100 latestBlock) []).
  intros found [Hlen Hall] E.
  assert (Eh : h = {| History.transactions := sort newest_first found;
                      History.totalCount :=
                        List.length (sort newest_first found) |})
    by congruence.
  subst h. cbn [History.transactions History.totalCount].
  pose proof (sort_perm found) as Hp.
  repeat split.
  - now rewrite <- (Permutation_length Hp).
  - now apply (Permutation_Forall Hp).
  - apply sort_descending.
Qed.

(** A successful block-height read is all the call needs to return. *)
Lemma history_returns client toISOString address limit latestBlock :
  Client.getBlockNumber client = Ok latestBlock ->
  exists h, getTransactionHistory client toISOString address limit = Ok h.
Proof.
  intros E. unfold getTransactionHistory. rewrite E. eauto.
Qed.

(** The body of the loop throws only when the block's time cannot be
    rendered; the decimal numerals it parses always parse. *)
Lemma record_of_throws client toISOString block txObj :
  record_of client toISOString block txObj = None <->
  toISOString (Block.timestamp block * 1000) = None.
Proof.
  unfold record_of, receipt_of.
  assert (G : exists p, BigInt (gasPrice_or_0 (Tx.gasPrice txObj)) = Some p).
  { unfold gasPrice_or_0. destruct (Tx.gasPrice txObj) as [p|].
    - destruct (p =? 0); [exists 0 | exists p]; reflexivity.
    - exists 0. reflexivity. }
  destruct G as [p ->].
  destruct (Client.getTransactionReceipt client (Tx.hash txObj)) as [rc|].
  - rewrite BigInt_of_toString.
    destruct (toISOString (Block.timestamp block * 1000));
      split; congruence.
  - change (JS.BigInt_of_string "0") with (Some 0).
    destruct (toISOString (Block.timestamp block * 1000));
      split; congruence.
Qed.

Lemma record_of_fee client toISOString block txObj r :
  record_of client toISOString block txObj = Some r ->
  exists used price,
    JS.BigInt_of_string (Record.gasUsed r) = Some used /\
    JS.BigInt_of_string (Record.gasPrice r) = Some price /\
    Record.fee r = JS.bigint_toString (used * price).
Proof.
  unfold record_of.
  destruct (receipt_of client (Tx.hash txObj)) as [gasUsed status].
  destruct (JS.BigInt_of_string gasUsed) as [used|] eqn:Hu; [|discriminate].
  destruct (BigInt (gasPrice_or_0 (Tx.gasPrice txObj))) as [price|] eqn:Hp;
    [|discriminate].
  destruct (toISOString (Block.timestamp block * 1000)); [|discriminate].
  intros [= <-]. simpl. exists used, price.
  rewrite BigInt_gasPrice. auto.
Qed.

Lemma record_of_type client toISOString block txObj r :
  record_of client toISOString block txObj = Some r ->
  Record.to r = Tx.to txObj /\
  Record.type r = txType (Tx.to txObj) (Tx.input txObj) /\
  Record.blockNumber r = Block.number block.
Proof.
  unfold record_of.
  destruct (receipt_of client (Tx.hash txObj)) as [gasUsed status].
  destruct (JS.BigInt_of_string gasUsed); [|discriminate].
  destruct (BigInt (gasPrice_or_0 (Tx.gasPrice txObj))); [|discriminate].
  destruct (toISOString (Block.timestamp block * 1000)); [|discriminate].
  intros [= <-]. simpl. auto.
Qed.

(** *** Bound and order of the history *)

(** C2 as stated fails for a limit that is not a whole number: with a limit
    of 2.5 the guard [transactions.length < limit] still holds at length 2,
    and three records are returned. *)
Lemma getTransactionHistory_limit_counterexample :
  getTransactionHistory Scenario.receiving_only JS.toISOString Scenario.me
    (5 # 2) = Ok (Scenario.received (5 # 2)) /\
  List.length (History.transactions (Scenario.received (5 # 2))) = 3%nat /\
  ~ (inject_Z (Z.of_nat
       (List.length (History.transactions (Scenario.received (5 # 2)))))
     <= 5 # 2)%Q.
Proof.
  split; [vm_compute; reflexivity|].
  split; [vm_compute; reflexivity|].
  intros H. vm_compute in H. apply H. reflexivity.
Qed.

(** C2, amended.  The list [getTransactionHistory] returns holds at most
    [limit] rounded up to a whole number of entries, and none when [limit]
    is zero or less; so at most [limit] entries whenever [limit] is a whole
    number that is not negative.  Its entries are sorted by block number,
    newest first. *)
Theorem getTransactionHistory_bounded_and_sorted
    client toISOString address limit h :
  getTransactionHistory client toISOString address limit = Ok h ->
  (List.length (History.transactions h) <= capacity limit)%nat /\
  (forall n : nat, (limit == inject_Z (Z.of_nat n))%Q ->
     (List.length (History.transactions h) <= n)%nat) /\
  descending (History.transactions h).
Proof.
  intros H. apply history_shape in H as (Hlen & _ & Hsorted & _).
  repeat split; try assumption.
  intros n E. now rewrite <- (capacity_whole n limit E).
Qed.

Lemma getTransactionHistory_bounded_and_sorted_witness :
  (List.length (History.transactions (Scenario.received 2)) <= 2)%nat /\
  descending (History.transactions (Scenario.received 2)).
Proof.
  destruct (getTransactionHistory_bounded_and_sorted
              Scenario.receiving_only JS.toISOString Scenario.me 2
              (Scenario.received 2)) as (_ & Hn & Hs).
  - vm_compute. reflexivity.
  - split; [apply (Hn 2%nat); reflexivity | exact Hs].
Defined.

(** C10 as stated fails in its bound: with a limit of one half a record is
    still pushed, and [totalCount] is 1. *)
Lemma totalCount_limit_counterexample :
  getTransactionHistory Scenario.receiving_only JS.toISOString Scenario.me
    (1 # 2) = Ok (Scenario.received (1 # 2)) /\
  History.totalCount (Scenario.received (1 # 2)) = 1%nat /\
  ~ (inject_Z (Z.of_nat (History.totalCount (Scenario.received (1 # 2))))
     <= 1 # 2)%Q.
Proof.
  split; [vm_compute; reflexivity|].
  split; [vm_compute; reflexivity|].
  intros H. vm_compute in H. apply H. reflexivity.
Qed.

(** C10, amended.  In every successful result [totalCount] is the number
    of entries of the returned list; it is therefore at most [limit]
    rounded up to a whole number (at most [limit] itself when that is a
    whole number, not negative), and it counts the records returned, not
    the transactions of the address on the chain. *)
Theorem totalCount_is_length client toISOString address limit h :
  getTransactionHistory client toISOString address limit = Ok h ->
  History.totalCount h = List.length (History.transactions h) /\
  (History.totalCount h <= capacity limit)%nat /\
  (forall n : nat, (limit == inject_Z (Z.of_nat n))%Q ->
     (History.totalCount h <= n)%nat).
Proof.
  intros H. apply history_shape in H as (Hlen & _ & _ & Hcount).
  rewrite Hcount. repeat split; try assumption.
  intros n E. now rewrite <- (capacity_whole n limit E).
Qed.

Lemma totalCount_is_length_witness :
  History.totalCount (Scenario.received 2) = 2%nat /\
  (History.totalCount (Scenario.received 2) <= 2)%nat.
Proof.
  destruct (totalCount_is_length
              Scenario.receiving_only JS.toISOString Scenario.me 2
              (Scenario.received 2)) as (Hc & _ & Hn).
  - vm_compute. reflexivity.
  - split; [rewrite Hc; vm_compute; reflexivity
           | apply (Hn 2%nat); reflexivity].
Defined.

(** *** Fees *)

(** C3.  In every record of a history the [fee] is the decimal numeral of
    the product of the integers that [gasUsed] and [gasPrice] denote; so
    with [gasUsed] 21000 and [gasPrice] 1000000000 it is 21000000000000. *)
Theorem fee_is_gasUsed_times_gasPrice
    client toISOString address limit h r :
  getTransactionHistory client toISOString address limit = Ok h ->
  In r (History.transactions h) ->
  (exists used price,
     JS.BigInt_of_string (Record.gasUsed r) = Some used /\
     JS.BigInt_of_string (Record.gasPrice r) = Some price /\
     Record.fee r = JS.bigint_toString (used * price)) /\
  (Record.gasUsed r = "21000" -> Record.gasPrice r = "1000000000" ->
   Record.fee r = "21000000000000").
Proof.
  intros H Hr. apply history_shape in H as (_ & Hall & _ & _).
  rewrite Forall_forall in Hall.
  destruct (Hall r Hr) as (blockNum & block & txObj & _ & _ & _ & Hrec).
  destruct (record_of_fee _ _ _ _ _ Hrec) as (used & price & Hu & Hp & Hf).
  split; [now exists used, price|].
  intros Eu Ep. rewrite Eu in Hu. rewrite Ep in Hp.
  vm_compute in Hu. vm_compute in Hp.
  injection Hu as <-. injection Hp as <-. rewrite Hf. reflexivity.
Qed.

Lemma fee_is_gasUsed_times_gasPrice_witness :
  Record.fee (Scenario.first_of (Scenario.received 10)) = "21000000000000".
Proof.
  apply (proj2 (fee_is_gasUsed_times_gasPrice
                  Scenario.receiving_only JS.toISOString Scenario.me 10
                  (Scenario.received 10)
                  (Scenario.first_of (Scenario.received 10))
                  ltac:(vm_compute; reflexivity)
                  ltac:(vm_compute; left; reflexivity)));
    vm_compute; reflexivity.
Defined.

(** *** Classification *)

Lemma startsWith_prefix (m : nat) (s : string) :
  JS.startsWith (substring 0 m s) s = true.
Proof.
  revert s. induction m as [|m IH]; intros [|c s]; simpl; try reflexivity.
  now rewrite Ascii.eqb_refl, IH.
Qed.

Lemma includes_unfold (s p : string) :
  JS.includes s p =
  JS.startsWith p s ||
  match s with
  | EmptyString => false
  | String _ r => JS.includes r p
  end.
Proof.
  destruct s; reflexivity.
Qed.

(** A substring of [s] occurs in [s]. *)
Lemma includes_substring (n m : nat) (s : string) :
  JS.includes s (substring n m s) = true.
Proof.
  revert s. induction n as [|n IH]; intros s.
  - rewrite includes_unfold, startsWith_prefix. reflexivity.
  - destruct s as [|c s].
    + destruct m; reflexivity.
    + change (substring (S n) m (String c s)) with (substring n m s).
      rewrite includes_unfold, IH. apply orb_true_r.
Qed.

Lemma includes_selector (data : string) :
  JS.includes (JS.toLowerCase data) (selector data) = true.
Proof.
  apply includes_substring.
Qed.

(** How [txType] decides, case by case. *)
Lemma txType_cases (to input : option string) :
  match to, call_data input with
  | None, _ => txType to input = contract
  | Some _, None => txType to input = transfer
  | Some _, Some data =>
      let lowered := JS.toLowerCase data in
      txType to input =
        (if JS.includes lowered "a9059cbb" || JS.includes lowered "23b872dd"
         then transfer
         else if JS.includes lowered "7ff36ab5"
                 || JS.includes lowered "38ed1739"
         then swap
         else contract) /\
      (selector data = "a9059cbb" \/ selector data = "23b872dd" ->
       txType to input = transfer)
  end.
Proof.
  destruct to as [recipient|]; [|reflexivity].
  unfold call_data, txType. destruct input as [data|]; [|reflexivity].
  destruct (negb (data =? "") && negb (data =? "0x"))%string; [|reflexivity].
  cbv zeta. split; [reflexivity|].
  intros [E|E]; pose proof (includes_selector data) as I;
    rewrite E in I; rewrite I; [reflexivity|].
  now rewrite orb_true_r.
Qed.

(** C8 as stated fails three ways: a swap call whose arguments contain the
    bytes [a9059cbb] is a "transfer"; a call of an unlisted function whose
    arguments contain [38ed1739] is a "swap"; and a contract creation
    without call data is a "contract". *)
Lemma txType_by_selector_counterexample :
  getTransactionHistory Scenario.calling JS.toISOString Scenario.me 10
    = Ok Scenario.called /\
  map Record.hash (History.transactions Scenario.called)
    = map Tx.hash [ Scenario.swap_with_transfer_bytes;
                    Scenario.unknown_with_swap_bytes;
                    Scenario.creation_without_data ] /\
  map Record.type (History.transactions Scenario.called)
    = [ transfer; swap; contract ] /\
  map (fun txObj => txType_by_selector (Tx.input txObj))
      [ Scenario.swap_with_transfer_bytes;
        Scenario.unknown_with_swap_bytes;
        Scenario.creation_without_data ]
    = [ swap; contract; transfer ].
Proof.
  repeat split; vm_compute; reflexivity.
Qed.

(** C8, amended.  Every record of a history is built by the loop body from
    a transaction of a block the client returned, with that transaction's
    hash, recipient and block, and its type is: "contract" when that
    transaction has no recipient; otherwise "transfer" when it has no call
    data; otherwise decided by searching the whole lower-cased call data,
    not its leading four bytes alone: "transfer" when a transfer or
    transferFrom selector occurs anywhere in it, else "swap" when a swap
    selector occurs anywhere, else "contract".  With a recipient, a leading
    transfer or transferFrom selector therefore always gives "transfer".
    The type follows in this way the call data of whichever transaction
    of a returned block the record is built from. *)
Theorem txType_searches_whole_call_data
    client toISOString address limit h r :
  getTransactionHistory client toISOString address limit = Ok h ->
  In r (History.transactions h) ->
  (exists blockNum block txObj,
     Client.getBlock client blockNum = Ok block /\
     In (TxObject txObj) (Block.transactions block) /\
     isInvolved txObj address = true /\
     record_of client toISOString block txObj = Some r /\
     Record.hash r = Tx.hash txObj /\
     Record.to r = Tx.to txObj /\
     Record.blockNumber r = Block.number block) /\
  (forall blockNum block txObj,
     Client.getBlock client blockNum = Ok block ->
     In (TxObject txObj) (Block.transactions block) ->
     record_of client toISOString block txObj = Some r ->
     match Tx.to txObj, call_data (Tx.input txObj) with
     | None, _ => Record.type r = contract
     | Some _, None => Record.type r = transfer
     | Some _, Some data =>
         let lowered := JS.toLowerCase data in
         Record.type r =
           (if JS.includes lowered "a9059cbb"
               || JS.includes lowered "23b872dd"
            then transfer
            else if JS.includes lowered "7ff36ab5"
                    || JS.includes lowered "38ed1739"
            then swap
            else contract) /\
         (selector data = "a9059cbb" \/ selector data = "23b872dd" ->
          Record.type r = transfer)
     end).
Proof.
  intros H Hr. split.
  - apply history_shape in H as (_ & Hall & _ & _).
    rewrite Forall_forall in Hall.
    destruct (Hall r Hr)
      as (blockNum & block & txObj & Hb & Hin & Hinv & Hrec).
    destruct (record_of_type _ _ _ _ _ Hrec) as (Hto & _ & Hnum).
    exists blockNum, block, txObj. repeat split; try assumption.
    revert Hrec. unfold record_of.
    destruct (receipt_of client (Tx.hash txObj)) as [gasUsed status].
    destruct (JS.BigInt_of_string gasUsed); [|discriminate].
    destruct (BigInt (gasPrice_or_0 (Tx.gasPrice txObj))); [|discriminate].
    destruct (toISOString (Block.timestamp block * 1000)); [|discriminate].
    intros [= <-]. reflexivity.
  - intros blockNum block txObj _ _ Hrec.
    destruct (record_of_type _ _ _ _ _ Hrec) as (_ & Hty & _).
    rewrite Hty. apply txType_cases.
Qed.

Lemma txType_searches_whole_call_data_witness :
  exists blockNum block txObj,
    Client.getBlock Scenario.calling blockNum = Ok block /\
    In (TxObject txObj) (Block.transactions block) /\
    record_of Scenario.calling JS.toISOString block txObj
      = Some (Scenario.first_of Scenario.called) /\
    Record.hash (Scenario.first_of Scenario.called) = Tx.hash txObj /\
    match Tx.to txObj, call_data (Tx.input txObj) with
    | None, _ => Record.type (Scenario.first_of Scenario.called) = contract
    | Some _, None =>
        Record.type (Scenario.first_of Scenario.called) = transfer
    | Some _, Some data =>
        let lowered := JS.toLowerCase data in
        Record.type (Scenario.first_of Scenario.called) =
          (if JS.includes lowered "a9059cbb" || JS.includes lowered "23b872dd"
           then transfer
           else if JS.includes lowered "7ff36ab5"
                   || JS.includes lowered "38ed1739"
           then swap
           else contract) /\
        (selector data = "a9059cbb" \/ selector data = "23b872dd" ->
         Record.type (Scenario.first_of Scenario.called) = transfer)
    end.
Proof.
  destruct (txType_searches_whole_call_data
              Scenario.calling JS.toISOString Scenario.me 10 Scenario.called
              (Scenario.first_of Scenario.called))
    as [(blockNum & block & txObj & Hb & Hin & _ & Hrec & Hh & _) Hall].
  - vm_compute. reflexivity.
  - vm_compute. left. reflexivity.
  - exists blockNum, block, txObj.
    repeat (split; [assumption|]). exact (Hall _ _ _ Hb Hin Hrec).
Defined.

(** *** Wallet activity *)

(** C9 as stated fails for an address that has only received: the chain
    reports a transaction count of 0 for it, yet the scan finds the
    payments it received, so [lastActivity] is the time of the newest one
    and the recent list is not empty. *)
Lemma getWalletActivity_zero_count_counterexample :
  getTransactionCount Scenario.receiving_only Scenario.me = Ok 0 /\
  exists activity,
    getWalletActivity Scenario.receiving_only JS.toISOString
      Scenario.now Scenario.draw Scenario.me = Ok activity /\
    Activity.transactionCount activity = 0 /\
    Activity.lastActivity activity = Some "2023-11-14T22:13:20.000Z" /\
    List.length (Activity.recentTransactions activity) = 3%nat.
Proof.
  split; [reflexivity|].
  eexists. split; [vm_compute; reflexivity|].
  repeat split.
Qed.

(** C9, amended.  When the chain reports a transaction count of 0 for an
    address and the scan of the window finds no transaction involving it,
    [getWalletActivity] returns [lastActivity] null and an empty recent
    list.  (When the scan does find transactions, [lastActivity] is the
    time of the newest and the list holds them, whatever the count.) *)
Theorem getWalletActivity_zero_count_nothing_found
    client toISOString Date_now Math_random address h :
  getTransactionCount client address = Ok 0 ->
  getTransactionHistory client toISOString address 5 = Ok h ->
  History.transactions h = [] ->
  getWalletActivity client toISOString Date_now Math_random address =
    Ok {| Activity.transactionCount := 0;
          Activity.lastActivity := None;
          Activity.recentTransactions := [] |}.
Proof.
  intros Hc Hh He. unfold getWalletActivity.
  rewrite Hc, Hh, He. reflexivity.
Qed.

Lemma getWalletActivity_zero_count_nothing_found_witness :
  getWalletActivity Scenario.receiving_only JS.toISOString
    Scenario.now Scenario.draw Scenario.stranger =
    Ok {| Activity.transactionCount := 0;
          Activity.lastActivity := None;
          Activity.recentTransactions := [] |}.
Proof.
  apply (getWalletActivity_zero_count_nothing_found
           Scenario.receiving_only JS.toISOString Scenario.now Scenario.draw
           Scenario.stranger
           (history_of (getTransactionHistory Scenario.receiving_only
                          JS.toISOString Scenario.stranger 5))).
  - reflexivity.
  - vm_compute. reflexivity.
  - vm_compute. reflexivity.
Defined.

(** A chain on which no listed transaction involves the address gives an
    empty history, and so, with a count of 0, the inactive summary. *)
Lemma history_empty_without_involved client toISOString address limit h :
  (forall blockNum block txObj,
     Client.getBlock client blockNum = Ok block ->
     In (TxObject txObj) (Block.transactions block) ->
     isInvolved txObj address = false) ->
  getTransactionHistory client toISOString address limit = Ok h ->
  History.transactions h = [].
Proof.
  intros Hnone H. apply history_shape in H as (_ & Hall & _ & _).
  destruct (History.transactions h) as [|r rest]; [reflexivity|].
  inversion Hall as [|? ? (blockNum & block & txObj & Hb & Hin & Hinv & _) _].
  rewrite (Hnone blockNum block txObj Hb Hin) in Hinv. discriminate.
Qed.

Lemma getWalletActivity_inactive
    client toISOString Date_now Math_random address latestBlock :
  getTransactionCount client address = Ok 0 ->
  Client.getBlockNumber client = Ok latestBlock ->
  (forall blockNum block txObj,
     Client.getBlock client blockNum = Ok block ->
     In (TxObject txObj) (Block.transactions block) ->
     isInvolved txObj address = false) ->
  getWalletActivity client toISOString Date_now Math_random address =
    Ok {| Activity.transactionCount := 0;
          Activity.lastActivity := None;
          Activity.recentTransactions := [] |}.
Proof.
  intros Hc Hb Hnone.
  destruct (history_returns client toISOString address 5 latestBlock Hb)
    as [h Hh].
  pose proof (history_empty_without_involved _ _ _ _ _ Hnone Hh) as He.
  unfold getWalletActivity. rewrite Hc, Hh, He. reflexivity.
Qed.

(** Whatever the count, a non-empty history decides [lastActivity]. *)
Lemma getWalletActivity_history_first
    client toISOString Date_now Math_random address count h newest rest :
  getTransactionCount client address = Ok count ->
  getTransactionHistory client toISOString address 5 = Ok h ->
  History.transactions h = newest :: rest ->
  exists activity,
    getWalletActivity client toISOString Date_now Math_random address
      = Ok activity /\
    Activity.lastActivity activity = Some (Record.timestamp newest) /\
    List.length (Activity.recentTransactions activity)
      = S (List.length rest).
Proof.
  intros Hc Hh He. unfold getWalletActivity.
  rewrite Hc, Hh, He. eexists. split; [reflexivity|].
  simpl. now rewrite length_map.
Qed.

End TransactionsProofs.

(** ** Risk score *)

Module ToolsProofs.
Import Tools.

Local Open Scope Q_scope.

Lemma add_keeps_floor (x w : Q) :
  0 <= w -> 0.05 <= x -> 0.05 <= x + w.
Proof.
  intros Hw Hx. rewrite <- (Qplus_0_r 0.05). now apply Qplus_le_compat.
Qed.

Lemma add_if_keeps_floor (c : bool) (x w : Q) :
  0 <= w -> 0.05 <= x -> 0.05 <= add_if c w x.
Proof.
  intros Hw Hx. destruct c; simpl; [now apply add_keeps_floor | assumption].
Qed.

Lemma seed_nonneg (n : Z) :
  (0 <= n)%Z -> 0 <= inject_Z n / 65535 * 0.1.
Proof.
  intros H. apply Qmult_le_0_compat; [|discriminate].
  apply Qle_shift_div_l; [reflexivity|].
  rewrite Qmult_0_l. change (inject_Z 0 <= inject_Z n).
  now rewrite <- Zle_Qle.
Qed.

(** When the last four characters of the address do not start a
    hexadecimal numeral, the score is [NaN]. *)
Lemma riskScore_NaN Date_now Date_getTime parseFloat
    transactionCount lastActivity balance_sei address :
  JS.parseInt (JS.slice_last 4 address) 16 = None ->
  riskScore Date_now Date_getTime parseFloat
    transactionCount lastActivity balance_sei address = None.
Proof.
  intros H. unfold riskScore. cbv zeta. now rewrite H.
Qed.

(** When they do, and the numeral is not negative, the score is a number
    between 0.05 and 0.85. *)
Lemma riskScore_bounded Date_now Date_getTime parseFloat
    transactionCount lastActivity balance_sei address (n : Z) :
  JS.parseInt (JS.slice_last 4 address) 16 = Some (JS.Finite n) ->
  (0 <= n)%Z ->
  exists score,
    riskScore Date_now Date_getTime parseFloat
      transactionCount lastActivity balance_sei address = Some score /\
    0.05 <= score /\ score <= 0.85.
Proof.
  intros H Hn. unfold riskScore. cbv zeta. rewrite H.
  eexists. split; [reflexivity|]. split; [|apply Q.le_min_r].
  apply Q.min_glb; [|discriminate].
  apply add_keeps_floor; [now apply seed_nonneg|].
  do 2 (apply add_if_keeps_floor; [discriminate|]).
  assert (T : forall x, 0.05 <= x ->
    0.05 <= match lastActivity with
            | Some last =>
                if (last =? "")%string then x
                else if lt (daysSince Date_now Date_getTime last) (Some 1)
                     then x + 0.1
                     else add_if (lt (daysSince Date_now Date_getTime last)
                                     (Some 7)) 0.05 x
            | None => x
            end).
  { intros x Hx. destruct lastActivity as [last|]; [|exact Hx].
    destruct (last =? "")%string; [exact Hx|].
    destruct (lt (daysSince Date_now Date_getTime last) (Some 1)).
    - apply add_keeps_floor; [discriminate | exact Hx].
    - apply add_if_keeps_floor; [discriminate | exact Hx]. }
  apply T.
  do 5 (apply add_if_keeps_floor; [discriminate|]). discriminate.
Qed.
(** *** The last four characters of a valid EVM address *)

Local Open Scope Z_scope.

Ltac by_character c H :=
  destruct c as [[] [] [] [] [] [] [] []];
  vm_compute in H; try discriminate H.

Lemma hex_not_space (c : ascii) :
  Utils.char_in Utils.hex_digits c = true -> JS.is_space c = false.
Proof.
  intros H. by_character c H; reflexivity.
Qed.

Lemma hex_digit (c : ascii) :
  Utils.char_in Utils.hex_digits c = true ->
  exists d, JS.digit_in 16 c = Some d /\ 0 <= d < 16.
Proof.
  intros H. by_character c H; eexists;
    (split; [reflexivity
            | split; [intro X; vm_compute in X; discriminate X
                     | vm_compute; reflexivity]]).
Qed.

Lemma hex_no_sign (c : ascii) (r : string) :
  Utils.char_in Utils.hex_digits c = true ->
  JS.strip_sign (String c r) = (1, String c r).
Proof.
  intros H. by_character c H; reflexivity.
Qed.

Lemma hex_no_prefix (c1 c2 : ascii) (r : string) :
  Utils.char_in Utils.hex_digits c1 = true ->
  Utils.char_in Utils.hex_digits c2 = true ->
  JS.strip_hex_prefix (String c1 (String c2 r)) = None.
Proof.
  intros H1 H2. by_character c1 H1; try reflexivity.
  by_character c2 H2; reflexivity.
Qed.

Lemma digits_from_hex (s : string) :
  Utils.all_in Utils.hex_digits s ->
  forall a, 0 <= a ->
  exists v, JS.digits_from 16 s (Some a) = Some v /\
    0 <= v < (a + 1) * 16 ^ Z.of_nat (String.length s).
Proof.
  induction s as [|c s IH]; intros Hall a Ha.
  - exists a. split; [reflexivity|]. simpl. lia.
  - cbn [JS.digits_from]. destruct (hex_digit c) as (d & -> & Hd).
    { apply Hall. now left. }
    destruct (IH (fun x Hx => Hall x (or_intror Hx)) (a * 16 + d))
      as (v & Hv & Hb); [lia|].
    exists v. split; [exact Hv|].
    cbn [String.length]. rewrite Nat2Z.inj_succ, Z.pow_succ_r by lia.
    assert (P : 0 < 16 ^ Z.of_nat (String.length s))
      by (apply Z.pow_pos_nonneg; lia).
    nia.
Qed.

Lemma In_substring (c : ascii) (n m : nat) (s : string) :
  In c (list_ascii_of_string (substring n m s)) ->
  In c (list_ascii_of_string s).
Proof.
  revert n m. induction s as [|a s IH]; intros n m H.
  - destruct n, m; simpl in H; contradiction.
  - destruct n as [|n].
    + destruct m as [|m]; simpl in H; [contradiction|].
      destruct H as [H|H]; [now left | right; now apply (IH 0%nat m)].
    + right. now apply (IH n m).
Qed.

Lemma length_substring (n m : nat) (s : string) :
  (n + m <= String.length s)%nat -> String.length (substring n m s) = m.
Proof.
  revert n m. induction s as [|a s IH]; intros n m H; simpl in H.
  - assert (n = 0 /\ m = 0)%nat as [-> ->] by lia. reflexivity.
  - destruct n as [|n].
    + destruct m as [|m]; simpl; [reflexivity|].
      f_equal. apply (IH 0%nat m). lia.
    + simpl. apply IH. lia.
Qed.

Lemma parseInt_hex_suffix (address : string) :
  Utils.valid_evm_address address ->
  exists n, JS.parseInt (JS.slice_last 4 address) 16 = Some (JS.Finite n) /\
            0 <= n.
Proof.
  intros (h & -> & Hl & Hall). unfold JS.slice_last.
  change (String.length ("0x" ++ h)) with (S (S (String.length h))).
  rewrite Hl.
  change (substring (42 - 4) 4 ("0x" ++ h)) with (substring 36 4 h).
  pose proof (length_substring 36 4 h ltac:(lia)) as Hlen.
  assert (Hhex : Utils.all_in Utils.hex_digits (substring 36 4 h)).
  { intros c Hc. apply Hall. eapply In_substring. exact Hc. }
  destruct (substring 36 4 h) as [|c1 [|c2 r]]; try discriminate Hlen.
  assert (H1 : Utils.char_in Utils.hex_digits c1 = true)
    by (apply Hhex; now left).
  assert (H2 : Utils.char_in Utils.hex_digits c2 = true)
    by (apply Hhex; right; now left).
  destruct (hex_digit c1 H1) as (d1 & Hd1' & Hd1).
  destruct (digits_from_hex (String c2 r)
              (fun x Hx => Hhex x (or_intror Hx)) d1 ltac:(lia))
    as (v & Hv & Hpos).
  simpl JS.digits_from in Hv.
  assert (L : String.length r = 2%nat) by (simpl in Hlen; lia).
  cbn [String.length] in Hpos. rewrite L in Hpos.
  change (16 ^ Z.of_nat 3) with 4096 in Hpos.
  exists (1 * v). split; [|lia].
  apply JSProofs.parseInt_exact; [|lia].
  unfold JS.mathInt. simpl JS.trimStart. rewrite (hex_not_space c1 H1).
  rewrite (hex_no_sign c1 _ H1), (hex_no_prefix c1 c2 r H1 H2).
  simpl orb. cbv iota. simpl JS.digits_from. rewrite Hd1', Hv. reflexivity.
Qed.

(** On a valid EVM address, whatever the other inputs, the score is a
    number between 0.05 and 0.85. *)
Lemma riskScore_bounded_evm Date_now Date_getTime parseFloat
    transactionCount lastActivity balance_sei address :
  Utils.valid_evm_address address ->
  exists score,
    riskScore Date_now Date_getTime parseFloat
      transactionCount lastActivity balance_sei address = Some score /\
    (0.05 <= score)%Q /\ (score <= 0.85)%Q.
Proof.
  intros H. destruct (parseInt_hex_suffix address H) as (n & Hp & Hn).
  eapply riskScore_bounded; eassumption.
Qed.

(** *** The last four characters of any address

    Four characters never denote a number beyond 0xffff, so the infinite
    values of [parseInt] are out of reach of the score. *)

Lemma digit_in_range (c : ascii) (d : Z) :
  JS.digit_in 16 c = Some d -> 0 <= d < 16.
Proof.
  intros H. destruct c as [[] [] [] [] [] [] [] []];
    vm_compute in H; try discriminate H; injection H as <-; lia.
Qed.

Lemma digits_from_bound (s : string) :
  forall acc v,
    match acc with Some a => 0 <= a | None => True end ->
    JS.digits_from 16 s acc = Some v ->
    0 <= v < match acc with Some a => a + 1 | None => 1 end
             * 16 ^ Z.of_nat (String.length s).
Proof.
  induction s as [|c s IH]; intros acc v Ha H.
  - cbn [JS.digits_from] in H. subst acc. simpl. lia.
  - cbn [String.length]. rewrite Nat2Z.inj_succ, Z.pow_succ_r by lia.
    assert (P : 0 < 16 ^ Z.of_nat (String.length s))
      by (apply Z.pow_pos_nonneg; lia).
    cbn [JS.digits_from] in H.
    destruct (JS.digit_in 16 c) as [d|] eqn:D.
    + apply digit_in_range in D. apply IH in H.
      * destruct acc as [a|]; nia.
      * destruct acc as [a|]; nia.
    + subst acc. nia.
Qed.

Lemma trimStart_length (s : string) :
  (String.length (JS.trimStart s) <= String.length s)%nat.
Proof.
  induction s as [|c s IH]; simpl; [lia|].
  destruct (JS.is_space c); simpl; lia.
Qed.

Lemma strip_sign_length (s : string) :
  (fst (JS.strip_sign s) = 1 \/ fst (JS.strip_sign s) = -1) /\
  (String.length (snd (JS.strip_sign s)) <= String.length s)%nat.
Proof.
  destruct s as [|c s]; [simpl; auto|].
  destruct c as [[] [] [] [] [] [] [] []]; simpl; auto.
Qed.

Lemma strip_hex_prefix_length (s r : string) :
  JS.strip_hex_prefix s = Some r ->
  (String.length r <= String.length s)%nat.
Proof.
  destruct s as [|c1 [|c2 s]];
    [discriminate
    | destruct c1 as [[] [] [] [] [] [] [] []]; discriminate
    |].
  destruct c1 as [[] [] [] [] [] [] [] []]; try discriminate.
  destruct c2 as [[] [] [] [] [] [] [] []]; try discriminate;
    intros [= <-]; simpl; lia.
Qed.

Lemma mathInt_hex_bound (s : string) (n : Z) :
  JS.mathInt s 16 = Some n ->
  Z.abs n < 16 ^ Z.of_nat (String.length s).
Proof.
  unfold JS.mathInt.
  pose proof (trimStart_length s) as T.
  pose proof (strip_sign_length (JS.trimStart s)) as [Hs Hl].
  destruct (JS.strip_sign (JS.trimStart s)) as [sign body].
  cbn [fst snd] in Hs, Hl. change ((16 =? 0) || (16 =? 16)) with true.
  cbv iota. change (16 =? 0) with false. cbv iota.
  assert (B : forall t v, (String.length t <= String.length body)%nat ->
            JS.digits_from 16 t None = Some v ->
            Z.abs (sign * v) < 16 ^ Z.of_nat (String.length s)).
  { intros t v Lt Hv. apply digits_from_bound in Hv; [|exact I].
    assert (16 ^ Z.of_nat (String.length t)
            <= 16 ^ Z.of_nat (String.length s))
      by (apply Z.pow_le_mono_r; lia).
    destruct Hs as [-> | ->]; lia. }
  destruct (JS.strip_hex_prefix body) as [r|] eqn:X.
  - apply strip_hex_prefix_length in X.
    destruct (JS.digits_from 16 r None) as [v|] eqn:Hv; [|discriminate].
    intros [= <-]. now apply (B r).
  - destruct (JS.digits_from 16 body None) as [v|] eqn:Hv; [|discriminate].
    intros [= <-]. now apply (B body).
Qed.

Lemma substring_length (n m : nat) (s : string) :
  (String.length (substring n m s) <= m)%nat.
Proof.
  revert n m. induction s as [|a s IH]; intros n m.
  - destruct n, m; simpl; lia.
  - destruct n as [|n].
    + destruct m as [|m]; simpl; [lia|]. specialize (IH 0%nat m). lia.
    + simpl. apply IH.
Qed.

(** Whatever the address, [parseInt(address.slice(-4), 16)] is [NaN] or an
    integer below 65536 in absolute value: never an infinity. *)
Lemma parseInt_suffix_finite (address : string) :
  JS.parseInt (JS.slice_last 4 address) 16 = None \/
  exists n, JS.parseInt (JS.slice_last 4 address) 16 = Some (JS.Finite n) /\
            Z.abs n < 65536.
Proof.
  destruct (JS.mathInt (JS.slice_last 4 address) 16) as [n|] eqn:E.
  - right. exists n.
    pose proof (mathInt_hex_bound _ _ E) as B.
    pose proof (substring_length (String.length address - 4) 4 address) as L.
    fold (JS.slice_last 4 address) in L.
    assert (16 ^ Z.of_nat (String.length (JS.slice_last 4 address))
            <= 16 ^ 4) by (apply Z.pow_le_mono_r; lia).
    change (16 ^ 4) with 65536 in *.
    split; [|lia]. apply JSProofs.parseInt_exact; [exact E|].
    assert (65536 <= 2 ^ 53) by (vm_compute; discriminate). lia.
  - left. now apply JSProofs.parseInt_NaN.
Qed.

(** C1 fails on the code for the Sei addresses the tool advertises.  The
    last four characters of a bech32-like address need not be hexadecimal;
    when the first of them is not, [parseInt(addressHash, 16)] is [NaN],
    the sum is [NaN], and [Math.min(NaN, 0.85)] is [NaN]: the score is no
    number of the interval, whatever the count, balance and recency. *)
Theorem riskScore_not_a_number_for_sei_address
    Date_now Date_getTime parseFloat
    transactionCount lastActivity balance_sei :
  Utils.validateAddress "sei1qypqxpq9qcrsszg2pvxq6rs0zqg3yyc5lzv7xu"
    = Ok "sei1qypqxpq9qcrsszg2pvxq6rs0zqg3yyc5lzv7xu" /\
  riskScore Date_now Date_getTime parseFloat
    transactionCount lastActivity balance_sei
    "sei1qypqxpq9qcrsszg2pvxq6rs0zqg3yyc5lzv7xu" = None.
Proof.
  split; [reflexivity|]. apply riskScore_NaN. reflexivity.
Qed.

End ToolsProofs.

(** * Further properties of the network registry *)

Module ChainsMore.
Import Chains.

(** *** Decimal numerals and [parseInt] *)

Lemma digits_decimal (d : Decimal.uint) :
  forall a, JS.digits_from 10 (NilEmpty.string_of_uint d) (Some a)
            = Some (JS.decimal_value d a).
Proof.
  induction d; intros a; simpl; try reflexivity; apply IHd.
Qed.

Lemma decimal_value_acc (d : Decimal.uint) :
  forall p, JS.decimal_value d (Zpos p) = Zpos (Pos.of_uint_acc d p).
Proof.
  induction d; intros p; cbn [JS.decimal_value Pos.of_uint_acc];
    try reflexivity; rewrite <- IHd; f_equal; lia.
Qed.

Lemma decimal_value_of_uint (d : Decimal.uint) :
  JS.decimal_value d 0 = Z.of_N (Pos.of_uint d).
Proof.
  induction d; simpl; try reflexivity; try assumption;
    apply decimal_value_acc.
Qed.

(** The decimal numeral of an integer: an optional minus sign and a
    non-empty run of digits denoting its absolute value. *)
Lemma bigint_toString_shape (n : Z) :
  exists d, d <> Decimal.Nil /\ JS.decimal_value d 0 = Z.abs n /\
    JS.bigint_toString n =
      ((if (n <? 0)%Z then "-" else "") ++ NilEmpty.string_of_uint d)%string.
Proof.
  destruct n as [|p|p].
  - exists (Decimal.D0 Decimal.Nil). repeat split. discriminate.
  - exists (Pos.to_uint p). split; [apply Unsigned.to_uint_nonnil|]. split.
    + now rewrite decimal_value_of_uint, Unsigned.of_to.
    + unfold JS.bigint_toString. simpl.
      pose proof (Unsigned.to_uint_nonnil p).
      destruct (Pos.to_uint p); [contradiction | reflexivity ..].
  - exists (Pos.to_uint p). split; [apply Unsigned.to_uint_nonnil|]. split.
    + now rewrite decimal_value_of_uint, Unsigned.of_to.
    + unfold JS.bigint_toString. simpl.
      pose proof (Unsigned.to_uint_nonnil p).
      destruct (Pos.to_uint p); [contradiction | reflexivity ..].
Qed.

Lemma mathInt_digits (d : Decimal.uint) (sign : string) (radix : Z) :
  d <> Decimal.Nil ->
  (sign = "" \/ sign = "-")%string ->
  radix = 0 \/ radix = 10 ->
  JS.mathInt (sign ++ NilEmpty.string_of_uint d) radix =
    Some ((if String.eqb sign "-" then -1 else 1) * JS.decimal_value d 0).
Proof.
  intros Hd Hs Hr.
  assert (T : JS.trimStart (NilEmpty.string_of_uint d)
              = NilEmpty.string_of_uint d)
    by (destruct d; reflexivity).
  assert (S0 : JS.strip_sign (NilEmpty.string_of_uint d)
               = (1, NilEmpty.string_of_uint d))
    by (destruct d; reflexivity).
  assert (X : JS.strip_hex_prefix (NilEmpty.string_of_uint d) = None)
    by (destruct d as [|d|d|d|d|d|d|d|d|d|d]; try reflexivity;
        destruct d; reflexivity).
  assert (D : JS.digits_from 10 (NilEmpty.string_of_uint d) None
              = Some (JS.decimal_value d 0)).
  { destruct d; [contradiction | ..]; simpl; apply digits_decimal. }
  unfold JS.mathInt.
  destruct Hs as [-> | ->]; destruct Hr as [-> | ->]; simpl append.
  - rewrite T, S0. simpl. now rewrite X, D.
  - rewrite T, S0. simpl. now rewrite D.
  - simpl JS.trimStart. simpl JS.strip_sign. simpl. now rewrite X, D.
  - simpl JS.trimStart. simpl JS.strip_sign. simpl. now rewrite D.
Qed.

(** The integer [parseInt] reads in the decimal numeral of an integer is
    that integer. *)
Lemma mathInt_bigint_toString (n : Z) (radix : Z) :
  radix = 0 \/ radix = 10 ->
  JS.mathInt (JS.bigint_toString n) radix = Some n.
Proof.
  intros Hr. destruct (bigint_toString_shape n) as (d & Hd & Hv & ->).
  destruct (n <? 0) eqn:Hn.
  - rewrite mathInt_digits; auto. rewrite Hv.
    change (String.eqb "-" "-") with true. cbv iota.
    apply Z.ltb_lt in Hn. f_equal. lia.
  - rewrite mathInt_digits; auto. rewrite Hv.
    change (String.eqb "" "-") with false. cbv iota.
    apply Z.ltb_ge in Hn. f_equal. lia.
Qed.

Lemma toLowerCase_digits (d : Decimal.uint) :
  JS.toLowerCase (NilEmpty.string_of_uint d) = NilEmpty.string_of_uint d.
Proof.
  induction d; simpl; try reflexivity; now rewrite IHd.
Qed.

Lemma toLowerCase_bigint_toString (n : Z) :
  JS.toLowerCase (JS.bigint_toString n) = JS.bigint_toString n.
Proof.
  destruct (bigint_toString_shape n) as (d & _ & _ & ->).
  destruct (n <? 0); simpl; now rewrite toLowerCase_digits.
Qed.

Lemma bigint_toString_no_name (n : Z) :
  known_alias (JS.bigint_toString n) = false /\
  JS.mem (JS.bigint_toString n) JS.Object_prototype_names = false.
Proof.
  destruct (bigint_toString_shape n) as (d & Hd & _ & ->).
  destruct (n <? 0); [split; reflexivity|].
  destruct d; [contradiction | ..]; split; reflexivity.
Qed.

(** X1.  The decimal numeral of an integer of at most 2^53 in absolute
    value, which is what [String(n)] gives for such a number, resolves to
    that integer, for the registered chain ids and for any other.  The
    numeral of a larger integer resolves to the double nearest to it, or
    to an infinity. *)
Theorem resolveChainId_of_decimal (n : Z) :
  (Z.abs n <= 2 ^ 53 ->
   resolveChainId (IdStr (JS.bigint_toString n)) = Num n) /\
  resolveChainId (IdStr (JS.bigint_toString n)) =
    match JS.round_to_double n with
    | JS.Finite parsedId => Num parsedId
    | JS.Infinity negative => Infinite negative
    end.
Proof.
  destruct (bigint_toString_no_name n) as [Ha Hp].
  assert (R : resolveChainId (IdStr (JS.bigint_toString n)) =
              match JS.round_to_double n with
              | JS.Finite parsedId => Num parsedId
              | JS.Infinity negative => Infinite negative
              end).
  { rewrite ChainsProofs.resolveChainId_unknown;
      rewrite toLowerCase_bigint_toString; try assumption.
    unfold JS.parseInt. rewrite mathInt_bigint_toString by auto.
    reflexivity. }
  split; [|exact R].
  intros H. rewrite R. now rewrite JSProofs.round_to_double_exact.
Qed.

Lemma resolveChainId_of_decimal_witness :
  resolveChainId (IdStr "713715") = Num 713715 /\
  resolveChainId (IdStr "-9007199254740992") = Num (-9007199254740992) /\
  resolveChainId (IdStr "9007199254740995") = Num 9007199254740996.
Proof.
  split; [|split].
  - apply (proj1 (resolveChainId_of_decimal 713715)).
    vm_compute. discriminate.
  - apply (proj1 (resolveChainId_of_decimal (-9007199254740992))).
    vm_compute. discriminate.
  - exact (proj2 (resolveChainId_of_decimal 9007199254740995)).
Defined.

(** *** Endpoints *)

Lemma rpc_url_heads_pool (k : resolved) :
  first (match at_key rpcUrlPoolMap k with
         | Some pool => pool
         | None => [DEFAULT_RPC_URL]
         end)
  = Some (or_default_url (at_key rpcUrlMap k)).
Proof.
  destruct k as [n|name|negative]; [|reflexivity ..]. simpl.
  destruct (n =? 1329); [reflexivity|].
  destruct (n =? 1328); [reflexivity|].
  destruct (n =? 713715); reflexivity.
Qed.

(** X2.  Whatever the identifier, the URL [getRpcUrl] returns is the first
    entry of the pool [getRpcUrlPool] returns for it, the default pool
    included; the pool is never empty. *)
Theorem getRpcUrl_heads_pool (chainIdentifier : identifier) :
  first (getRpcUrlPool chainIdentifier) = Some (getRpcUrl chainIdentifier).
Proof.
  unfold getRpcUrlPool, getRpcUrl.
  destruct chainIdentifier as [n|s]; apply rpc_url_heads_pool.
Qed.

(** X3.  A name and its chain id are interchangeable, and an alias never
    takes a fallback: for a string that lower-cases to an alias, each of
    [getChain], [getRpcUrl], [getRpcUrlPool] and [getWebSocketUrl] returns
    what it returns for the chain id the alias resolves to, and that id has
    its own entry in [chainMap] and in the endpoint pools. *)
Theorem alias_same_as_chain_id (s alias : string) (id : Z) :
  In (alias, id) networkNameMap ->
  JS.toLowerCase s = alias ->
  resolveChainId (IdStr s) = Num id /\
  getChain (IdStr s) = getChain (IdNum id) /\
  getRpcUrl (IdStr s) = getRpcUrl (IdNum id) /\
  getRpcUrlPool (IdStr s) = getRpcUrlPool (IdNum id) /\
  getWebSocketUrl (IdStr s) = getWebSocketUrl (IdNum id) /\
  chainMap_get chainMap id <> None /\
  num_get rpcUrlPoolMap id <> None.
Proof.
  intros H E.
  assert (R : resolveChainId (IdStr s) = Num id)
    by (eapply ChainsProofs.resolveChainId_alias; eassumption).
  unfold getRpcUrl, getRpcUrlPool, getWebSocketUrl. rewrite R.
  unfold getChain. rewrite E.
  simpl in H. destruct H as [H|[H|[H|[]]]]; injection H as <- <-;
    repeat split; discriminate.
Qed.

Lemma alias_same_as_chain_id_witness :
  resolveChainId (IdStr "SEI-Devnet") = Num 713715 /\
  getChain (IdStr "SEI-Devnet") = getChain (IdNum 713715) /\
  getRpcUrl (IdStr "SEI-Devnet") = getRpcUrl (IdNum 713715) /\
  getRpcUrlPool (IdStr "SEI-Devnet") = getRpcUrlPool (IdNum 713715) /\
  getWebSocketUrl (IdStr "SEI-Devnet") = getWebSocketUrl (IdNum 713715) /\
  chainMap_get chainMap 713715 <> None /\
  num_get rpcUrlPoolMap 713715 <> None.
Proof.
  apply (alias_same_as_chain_id "SEI-Devnet" "sei-devnet" 713715).
  - simpl. right. right. left. reflexivity.
  - reflexivity.
Defined.

(** X4.  For a chain id that is not registered the fallbacks disagree:
    [getChain] answers with the mainnet descriptor [sei] and
    [getWebSocketUrl] with the mainnet socket, while [getRpcUrl] answers
    with [DEFAULT_RPC_URL], which is the testnet endpoint. *)
Theorem unregistered_chain_id_fallbacks (n : Z) :
  n <> 1329 -> n <> 1328 -> n <> 713715 ->
  getChain (IdNum n) = Ok sei /\
  getWebSocketUrl (IdNum n) = getWebSocketUrl (IdNum 1329) /\
  getRpcUrl (IdNum n) = DEFAULT_RPC_URL /\
  getRpcUrl (IdNum n) = getRpcUrl (IdNum 1328) /\
  getRpcUrl (IdNum n) <> getRpcUrl (IdNum 1329) /\
  getRpcUrlPool (IdNum n) = [DEFAULT_RPC_URL].
Proof.
  intros H1 H2 H3.
  unfold getChain, getWebSocketUrl, getRpcUrl, getRpcUrlPool. simpl.
  apply Z.eqb_neq in H1, H2, H3. rewrite H1, H2, H3. simpl.
  repeat split. discriminate.
Qed.

Lemma unregistered_chain_id_fallbacks_witness :
  getChain (IdNum 1) = Ok sei /\
  getWebSocketUrl (IdNum 1) = getWebSocketUrl (IdNum 1329) /\
  getRpcUrl (IdNum 1) = DEFAULT_RPC_URL /\
  getRpcUrl (IdNum 1) = getRpcUrl (IdNum 1328) /\
  getRpcUrl (IdNum 1) <> getRpcUrl (IdNum 1329) /\
  getRpcUrlPool (IdNum 1) = [DEFAULT_RPC_URL].
Proof.
  apply (unregistered_chain_id_fallbacks 1); discriminate.
Defined.

End ChainsMore.

(** * Properties of the network listing service *)

Module NetworkMore.
Import Network.

Lemma find_network_cases (network : string) :
  (network = "sei" /\ exists info, find_network network = Some info
                                   /\ name info = "sei") \/
  (network = "sei-testnet" /\ exists info, find_network network = Some info
                                   /\ name info = "sei-testnet") \/
  (network <> "sei" /\ network <> "sei-testnet"
   /\ find_network network = None).
Proof.
  unfold find_network, getSupportedNetworks. cbn [networks find name].
  destruct (String.eqb_spec "sei" network) as [<-|H1].
  - left. split; [reflexivity|]. eexists. split; reflexivity.
  - destruct (String.eqb_spec "sei-testnet" network) as [<-|H2].
    + right. left. split; [reflexivity|]. eexists. split; reflexivity.
    + right. right. repeat split; try congruence; reflexivity.
Qed.

(** X5.  [getChainInfo] succeeds exactly for the names [sei] and
    [sei-testnet], [sei] being taken when no name is given; it then returns
    the descriptor of that name with status [active].  For every other name
    it fails with the message [Network <name> not supported]. *)
Theorem getChainInfo_supported_exactly (network : option string) :
  (or_sei_name network = "sei" \/ or_sei_name network = "sei-testnet" ->
   exists info, getChainInfo network = Ok info /\
     ChainInfo.chainName info = or_sei_name network /\
     ChainInfo.status info = "active") /\
  (or_sei_name network <> "sei" -> or_sei_name network <> "sei-testnet" ->
   getChainInfo network = Err (not_supported (or_sei_name network))).
Proof.
  unfold getChainInfo.
  destruct (find_network_cases (or_sei_name network))
    as [(E & info & -> & Hn) | [(E & info & -> & Hn) | (N1 & N2 & ->)]].
  - split; [|congruence]. intros _. eexists. split; [reflexivity|].
    simpl. now rewrite Hn, E.
  - split; [|congruence]. intros _. eexists. split; [reflexivity|].
    simpl. now rewrite Hn, E.
  - split; [|reflexivity]. intros [E|E]; congruence.
Qed.

Lemma getChainInfo_supported_exactly_witness :
  (exists info, getChainInfo None = Ok info /\
     ChainInfo.chainName info = "sei" /\ ChainInfo.status info = "active") /\
  getChainInfo (Some "pacific-1") = Err "Network pacific-1 not supported".
Proof.
  split.
  - apply (proj1 (getChainInfo_supported_exactly None)). left. reflexivity.
  - apply (proj2 (getChainInfo_supported_exactly (Some "pacific-1")));
      discriminate.
Defined.

(** X6.  The listing is narrower than the registry and strict about case.
    A name [getChainInfo] accepts is a registry alias that resolves to the
    mainnet or the testnet chain id; a name with an upper-case letter is
    rejected although [resolveChainId] ignores case; and the devnet alias,
    which the registry resolves, is rejected in every casing. *)
Theorem getChainInfo_narrower_than_registry (s : string) :
  (forall info, getChainInfo (Some s) = Ok info ->
     Chains.known_alias s = true /\
     (Chains.resolveChainId (Chains.IdStr s) = Chains.Num 1329 \/
      Chains.resolveChainId (Chains.IdStr s) = Chains.Num 1328)) /\
  (JS.toLowerCase s <> s ->
   getChainInfo (Some s) = Err (not_supported s)) /\
  (JS.toLowerCase s = "sei-devnet" ->
   Chains.resolveChainId (Chains.IdStr s) = Chains.Num 713715 /\
   getChainInfo (Some s) = Err (not_supported s)).
Proof.
  unfold getChainInfo. simpl or_sei_name.
  destruct (find_network_cases s)
    as [(E & info & -> & Hn) | [(E & info & -> & Hn) | (N1 & N2 & ->)]].
  - subst s. split; [|split].
    + intros _ _. split; [reflexivity | left; reflexivity].
    + intros H. now contradiction H.
    + discriminate.
  - subst s. split; [|split].
    + intros _ _. split; [reflexivity | right; reflexivity].
    + intros H. now contradiction H.
    + discriminate.
  - split; [|split].
    + discriminate.
    + reflexivity.
    + intros E. split; [|reflexivity].
      apply (ChainsProofs.resolveChainId_alias s "sei-devnet" 713715);
        [|assumption].
      simpl. right. right. left. reflexivity.
Qed.

Lemma getChainInfo_narrower_than_registry_witness :
  getChainInfo (Some "SEI") = Err (not_supported "SEI") /\
  (Chains.resolveChainId (Chains.IdStr "Sei-Devnet") = Chains.Num 713715 /\
   getChainInfo (Some "Sei-Devnet") = Err (not_supported "Sei-Devnet")).
Proof.
  split.
  - apply (proj1 (proj2 (getChainInfo_narrower_than_registry "SEI"))).
    discriminate.
  - apply (proj2 (proj2 (getChainInfo_narrower_than_registry "Sei-Devnet"))).
    reflexivity.
Defined.

Lemma mock_height_range (r : Q) :
  (0 <= r)%Q -> (r < 1)%Q ->
  0 <= Qfloor (r * inject_Z 1000000) <= 999999.
Proof.
  intros H0 H1. split.
  - change 0 with (Qfloor (inject_Z 0)). apply Qfloor_resp_le.
    apply Qmult_le_0_compat; [assumption | discriminate].
  - assert (L : (inject_Z (Qfloor (r * inject_Z 1000000))
                 < inject_Z 1000000)%Q).
    { eapply Qle_lt_trans; [apply Qfloor_le|].
      rewrite <- (Qmult_1_l (inject_Z 1000000)) at 2.
      apply Qmult_lt_compat_r; [reflexivity | assumption]. }
    rewrite <- Zlt_Qlt in L. lia.
Qed.

(** X7.  Whenever [Math.random()] is in its range [0, 1), the block height
    [getNetworkStatus] reports lies between 5000000 and 5999999, for the
    network asked for and with the current time; and [getNetworkStatus]
    succeeds for exactly the names [getChainInfo] succeeds for. *)
Theorem getNetworkStatus_height_range
    (Math_random : Q) (now_iso : string) (network : option string) :
  (0 <= Math_random)%Q -> (Math_random < 1)%Q ->
  (forall st, getNetworkStatus Math_random now_iso network = Ok st ->
     5000000 <= NetworkStatus.blockHeight st <= 5999999 /\
     NetworkStatus.network st = or_sei_name network /\
     NetworkStatus.timestamp st = now_iso) /\
  ((exists st, getNetworkStatus Math_random now_iso network = Ok st) <->
   (exists info, getChainInfo network = Ok info)).
Proof.
  intros H0 H1. pose proof (mock_height_range Math_random H0 H1) as R.
  unfold getNetworkStatus, getChainInfo.
  revert R. generalize (Qfloor (Math_random * inject_Z 1000000)).
  intros height R.
  destruct (find_network_cases (or_sei_name network))
    as [(E & info & -> & Hn) | [(E & info & -> & Hn) | (N1 & N2 & ->)]].
  - split; [|split; intros _; eexists; reflexivity].
    intros st [= <-].
    cbn [NetworkStatus.blockHeight NetworkStatus.network
         NetworkStatus.timestamp].
    rewrite Hn, E. repeat split; lia.
  - split; [|split; intros _; eexists; reflexivity].
    intros st [= <-].
    cbn [NetworkStatus.blockHeight NetworkStatus.network
         NetworkStatus.timestamp].
    rewrite Hn, E. repeat split; lia.
  - split; [discriminate|]. split; intros [x Hx]; discriminate.
Qed.

Lemma getNetworkStatus_height_range_witness :
  (forall st, getNetworkStatus (999999 # 1000000) "2023-11-14T22:13:20.000Z"
                (Some "sei-testnet") = Ok st ->
     5000000 <= NetworkStatus.blockHeight st <= 5999999 /\
     NetworkStatus.network st = "sei-testnet" /\
     NetworkStatus.timestamp st = "2023-11-14T22:13:20.000Z") /\
  ((exists st, getNetworkStatus (999999 # 1000000) "2023-11-14T22:13:20.000Z"
                 (Some "sei-testnet") = Ok st) <->
   (exists info, getChainInfo (Some "sei-testnet") = Ok info)).
Proof.
  apply (getNetworkStatus_height_range (999999 # 1000000)
           "2023-11-14T22:13:20.000Z" (Some "sei-testnet")).
  - discriminate.
  - reflexivity.
Defined.

End NetworkMore.

(** * Further properties of the history and of the wallet activity *)

Module TransactionsMore.
Import Transactions.

(** *** Failures *)

Lemma search_failures_as_empty client toISOString address limit
    (fuel : nat) :
  forall blockNum startBlock l,
    search (failures_as_empty client) toISOString fuel address limit
      blockNum startBlock l
    = search client toISOString fuel address limit blockNum startBlock l.
Proof.
  induction fuel as [|fuel IH]; intros blockNum startBlock l; simpl.
  - reflexivity.
  - destruct ((startBlock <? blockNum) && below limit l); [|reflexivity].
    rewrite IH. f_equal. unfold search_block. simpl.
    destruct (Client.getBlock client blockNum); reflexivity.
Qed.

(** On a client that was obtained, the exported functions are the ones
    the other properties are stated of. *)
Lemma exported_on_client client toISOString Date_now Math_random address
    limit :
  Exported.getTransactionCount (Ok client) address
    = getTransactionCount client address /\
  Exported.getTransactionHistory (Ok client) toISOString address limit
    = getTransactionHistory client toISOString address limit /\
  Exported.getWalletActivity (Ok client) toISOString Date_now Math_random
      address
    = getWalletActivity client toISOString Date_now Math_random address.
Proof.
  repeat split.
Qed.

(** X8.  [getTransactionHistory] fails in two cases only.  When
    [getPublicClient] throws, which happens before the [try], it fails with
    that error as it is; when the block height cannot be read, it fails
    with the message [Failed to fetch transaction history: ] followed by
    the cause.  Whenever the client is obtained and the height is read it
    returns a result.  A block that cannot be fetched is skipped: the
    result is the one obtained if that block held no transaction. *)
Theorem getTransactionHistory_failures
    getPublicClient toISOString address limit :
  (forall message, getPublicClient = Err message ->
     Exported.getTransactionHistory getPublicClient toISOString address limit
       = Err message) /\
  (forall client message,
     getPublicClient = Ok client ->
     Client.getBlockNumber client = Err message ->
     Exported.getTransactionHistory getPublicClient toISOString address limit
       = Err ("Failed to fetch transaction history: " ++ message)) /\
  (forall client latestBlock,
     getPublicClient = Ok client ->
     Client.getBlockNumber client = Ok latestBlock ->
     exists h,
       Exported.getTransactionHistory getPublicClient toISOString address
         limit = Ok h /\
       getTransactionHistory client toISOString address limit = Ok h) /\
  (forall client,
     getPublicClient = Ok client ->
     Exported.getTransactionHistory (Ok (failures_as_empty client))
       toISOString address limit
     = Exported.getTransactionHistory getPublicClient toISOString address
         limit).
Proof.
  split; [|split; [|split]].
  - intros message ->. reflexivity.
  - intros client message -> E. unfold Exported.getTransactionHistory.
    now rewrite E.
  - intros client latestBlock -> E.
    unfold Exported.getTransactionHistory, getTransactionHistory.
    rewrite E. eauto.
  - intros client ->. unfold Exported.getTransactionHistory.
    change (Client.getBlockNumber (failures_as_empty client))
      with (Client.getBlockNumber client).
    destruct (Client.getBlockNumber client) as [latestBlock|]; [|reflexivity].
    now rewrite search_failures_as_empty.
Qed.

Lemma getTransactionHistory_failures_witness :
  Exported.getTransactionHistory (Err "Unsupported network: arctic")
    JS.toISOString Scenario.me 10
    = Err "Unsupported network: arctic" /\
  exists h,
    Exported.getTransactionHistory (Ok Scenario.calling) JS.toISOString
      Scenario.me 10 = Ok h /\
    getTransactionHistory Scenario.calling JS.toISOString Scenario.me 10
      = Ok h.
Proof.
  split.
  - apply (proj1 (getTransactionHistory_failures
                    (Err "Unsupported network: arctic") JS.toISOString
                    Scenario.me 10)).
    reflexivity.
  - apply (proj1 (proj2 (proj2 (getTransactionHistory_failures
                                  (Ok Scenario.calling) JS.toISOString
                                  Scenario.me 10)))
             Scenario.calling 1000); reflexivity.
Defined.

(** *** What a record says *)

Lemma record_of_fields client toISOString block txObj r :
  record_of client toISOString block txObj = Some r ->
  Record.hash r = Tx.hash txObj /\
  Record.from r = or_string (Tx.from txObj) "" /\
  Record.to r = Tx.to txObj /\
  Record.blockNumber r = Block.number block /\
  toISOString (Block.timestamp block * 1000) = Some (Record.timestamp r) /\
  Record.gasPrice r = toString (gasPrice_or_0 (Tx.gasPrice txObj)) /\
  (Record.gasUsed r, Record.status r) = receipt_of client (Tx.hash txObj).
Proof.
  unfold record_of.
  destruct (receipt_of client (Tx.hash txObj)) as [gasUsed status].
  destruct (JS.BigInt_of_string gasUsed); [|discriminate].
  destruct (BigInt (gasPrice_or_0 (Tx.gasPrice txObj))); [|discriminate].
  destruct (toISOString (Block.timestamp block * 1000)); [|discriminate].
  intros [= <-]. simpl. repeat split.
Qed.

(** X9.  Every record of a history involves the address asked for: its
    [from] or its [to] equals the address up to the case of letters. *)
Theorem history_records_involve_address
    client toISOString address limit h r :
  getTransactionHistory client toISOString address limit = Ok h ->
  In r (History.transactions h) ->
  same_address (Some (Record.from r)) address
  || same_address (Record.to r) address = true.
Proof.
  intros H Hr.
  apply TransactionsProofs.history_shape in H as (_ & Hall & _ & _).
  rewrite Forall_forall in Hall.
  destruct (Hall r Hr) as (blockNum & block & txObj & _ & _ & Hinv & Hrec).
  apply record_of_fields in Hrec as (_ & Hfrom & Hto & _).
  rewrite Hfrom, Hto. unfold isInvolved in Hinv.
  apply orb_true_iff in Hinv as [Hi|Hi]; [|now rewrite Hi, orb_true_r].
  destruct (Tx.from txObj) as [a|]; [|discriminate]. simpl or_string.
  destruct (String.eqb_spec a ""); [subst a|]; now rewrite Hi.
Qed.

Lemma history_records_involve_address_witness :
  same_address
    (Some (Record.from (Scenario.first_of (Scenario.received 10))))
    Scenario.me
  || same_address (Record.to (Scenario.first_of (Scenario.received 10)))
       Scenario.me = true.
Proof.
  apply (history_records_involve_address
           Scenario.receiving_only JS.toISOString Scenario.me 10
           (Scenario.received 10)).
  - vm_compute. reflexivity.
  - vm_compute. left. reflexivity.
Defined.

(** X10.  What a record holds of its receipt.  When the receipt cannot be
    fetched the record has [gasUsed] 0, status [success] and [fee] 0; when
    it can, [gasUsed] is the receipt's and the status is [success] exactly
    when the receipt's is.  In every case a record whose [gasUsed] or
    [gasPrice] is 0 has [fee] 0. *)
Theorem history_records_receipt
    client toISOString address limit h r :
  getTransactionHistory client toISOString address limit = Ok h ->
  In r (History.transactions h) ->
  match Client.getTransactionReceipt client (Record.hash r) with
  | Err _ =>
      Record.gasUsed r = "0" /\ Record.status r = success /\
      Record.fee r = "0"
  | Ok receipt =>
      Record.gasUsed r = JS.bigint_toString (Receipt.gasUsed receipt) /\
      (Record.status r = success <-> Receipt.status receipt = "success")
  end /\
  (Record.gasUsed r = "0" \/ Record.gasPrice r = "0" -> Record.fee r = "0").
Proof.
  intros H Hr.
  apply TransactionsProofs.history_shape in H as (_ & Hall & _ & _).
  rewrite Forall_forall in Hall.
  destruct (Hall r Hr) as (blockNum & block & txObj & _ & _ & _ & Hrec).
  destruct (TransactionsProofs.record_of_fee _ _ _ _ _ Hrec)
    as (used & price & Hu & Hp & Hf).
  assert (Z : Record.gasUsed r = "0" \/ Record.gasPrice r = "0" ->
              Record.fee r = "0").
  { intros [E|E].
    - rewrite E in Hu. injection Hu as <-. now rewrite Hf.
    - rewrite E in Hp. injection Hp as <-. rewrite Hf.
      now rewrite Z.mul_0_r. }
  split; [|exact Z].
  apply record_of_fields in Hrec as (Hh & _ & _ & _ & _ & _ & Hrc).
  rewrite Hh. unfold receipt_of in Hrc.
  destruct (Client.getTransactionReceipt client (Tx.hash txObj))
    as [receipt|].
  - injection Hrc as Hg Hs. split; [assumption|]. rewrite Hs.
    destruct (String.eqb_spec (Receipt.status receipt) "success");
      split; congruence.
  - injection Hrc as Hg Hs. repeat split; auto.
Qed.

Lemma history_records_receipt_witness :
  Record.gasUsed (Scenario.first_of (Scenario.received 10)) = "21000" /\
  Record.status (Scenario.first_of (Scenario.received 10)) = success.
Proof.
  pose proof (proj1 (history_records_receipt
           Scenario.receiving_only JS.toISOString Scenario.me 10
           (Scenario.received 10) (Scenario.first_of (Scenario.received 10))
           ltac:(vm_compute; reflexivity)
           ltac:(vm_compute; left; reflexivity))) as H.
  change (Client.getTransactionReceipt Scenario.receiving_only
            (Record.hash (Scenario.first_of (Scenario.received 10))))
    with (Ok {| Receipt.gasUsed := 21000; Receipt.status := "success" |}
          : result Receipt.t) in H.
  cbv beta iota in H. destruct H as [Hg Hs].
  split; [exact Hg | apply Hs; reflexivity].
Defined.

(** *** The window *)





(** *** The limit as a cut *)

Lemma below_iff (limit : Q) (l : list Record.t) :
  below limit l = (List.length l <? capacity limit)%nat.
Proof.
  destruct (below limit l) eqn:B; symmetry.
  - apply Nat.ltb_lt. apply TransactionsProofs.below_capacity in B. lia.
  - apply Nat.ltb_ge. unfold below in B. apply negb_false_iff in B.
    apply Qle_bool_iff in B. apply Qceiling_resp_le in B.
    rewrite Qceiling_Z in B. unfold capacity. lia.
Qed.

Lemma capacity_mono (small big : Q) :
  (small <= big)%Q -> (capacity small <= capacity big)%nat.
Proof.
  intros H. apply Qceiling_resp_le in H. unfold capacity. lia.
Qed.

Section OneScan.

Variable client : Client.t.
Variable toISOString : Z -> option string.
Variable address : string.

Lemma visit_all_extends limit block txs :
  forall l, exists extra,
    visit_all client toISOString address limit block txs l
    = (l ++ extra)%list.
Proof.
  induction txs as [|tx rest IH]; intros l; simpl.
  - exists []. now rewrite app_nil_r.
  - destruct tx as [h|txObj]; simpl; [apply IH|].
    destruct (isInvolved txObj address && below limit l); [|apply IH].
    destruct (record_of client toISOString block txObj) as [r|].
    + destruct (IH (l ++ [r])%list) as [extra ->].
      exists (r :: extra). now rewrite <- app_assoc.
    + exists []. now rewrite app_nil_r.
Qed.

Lemma search_extends limit (fuel : nat) :
  forall blockNum startBlock l, exists extra,
    search client toISOString fuel address limit blockNum startBlock l
    = (l ++ extra)%list.
Proof.
  induction fuel as [|fuel IH]; intros blockNum startBlock l; simpl.
  - exists []. now rewrite app_nil_r.
  - destruct ((startBlock <? blockNum) && below limit l).
    + assert (E : exists e, search_block client toISOString address limit
                              blockNum l = (l ++ e)%list).
      { unfold search_block. destruct (Client.getBlock client blockNum).
        - apply visit_all_extends.
        - exists []. now rewrite app_nil_r. }
      destruct E as [e ->].
      destruct (IH (blockNum - 1) startBlock (l ++ e)%list) as [extra ->].
      exists (e ++ extra)%list. now rewrite app_assoc.
    + exists []. now rewrite app_nil_r.
Qed.

Lemma visit_all_full limit block txs l :
  (capacity limit <= List.length l)%nat ->
  visit_all client toISOString address limit block txs l = l.
Proof.
  intros F. assert (B : below limit l = false)
    by (rewrite below_iff; now apply Nat.ltb_ge).
  induction txs as [|tx rest IH]; simpl; [reflexivity|].
  destruct tx as [h|txObj]; simpl; [assumption|].
  now rewrite B, andb_false_r.
Qed.

Lemma search_full limit (fuel : nat) blockNum startBlock l :
  (capacity limit <= List.length l)%nat ->
  search client toISOString fuel address limit blockNum startBlock l = l.
Proof.
  intros F. assert (B : below limit l = false)
    by (rewrite below_iff; now apply Nat.ltb_ge).
  destruct fuel; simpl; [reflexivity|]. now rewrite B, andb_false_r.
Qed.

Variables small big : Q.
Hypothesis small_big : (capacity small <= capacity big)%nat.

Lemma firstn_full (k : nat) (lb extra : list Record.t) :
  (k <= List.length (firstn k lb))%nat ->
  firstn k (lb ++ extra) = firstn k lb.
Proof.
  intros F. rewrite length_firstn in F.
  rewrite firstn_app.
  replace (k - List.length lb)%nat with 0%nat by lia.
  now rewrite firstn_O, app_nil_r.
Qed.

Lemma firstn_short (k : nat) (lb : list Record.t) :
  (List.length (firstn k lb) < k)%nat ->
  firstn k lb = lb /\ (List.length lb < k)%nat.
Proof.
  intros F. rewrite length_firstn in F.
  split; [apply firstn_all2|]; lia.
Qed.

Lemma visit_all_prefix block txs :
  forall lb,
    visit_all client toISOString address small block txs
      (firstn (capacity small) lb)
    = firstn (capacity small)
        (visit_all client toISOString address big block txs lb).
Proof.
  induction txs as [|tx rest IH]; intros lb; [reflexivity|].
  destruct (le_lt_dec (capacity small)
              (List.length (firstn (capacity small) lb))) as [F|F].
  - rewrite visit_all_full by assumption.
    destruct (visit_all_extends big block (tx :: rest) lb) as [extra ->].
    now rewrite firstn_full.
  - destruct (firstn_short _ _ F) as [E L]. rewrite E. simpl.
    destruct tx as [h|txObj]; simpl.
    + rewrite <- IH. now rewrite E.
    + destruct (isInvolved txObj address); simpl.
      * rewrite !below_iff.
        replace (List.length lb <? capacity small)%nat with true
          by (symmetry; apply Nat.ltb_lt; lia).
        replace (List.length lb <? capacity big)%nat with true
          by (symmetry; apply Nat.ltb_lt; lia).
        destruct (record_of client toISOString block txObj) as [r|].
        -- rewrite <- IH. f_equal. symmetry. apply firstn_all2.
           rewrite length_app. simpl. lia.
        -- now rewrite E.
      * rewrite <- IH. now rewrite E.
Qed.

Lemma search_prefix (fuel : nat) :
  forall blockNum startBlock lb,
    search client toISOString fuel address small blockNum startBlock
      (firstn (capacity small) lb)
    = firstn (capacity small)
        (search client toISOString fuel address big blockNum startBlock lb).
Proof.
  induction fuel as [|fuel IH]; intros blockNum startBlock lb;
    [reflexivity|].
  destruct (le_lt_dec (capacity small)
              (List.length (firstn (capacity small) lb))) as [F|F].
  - rewrite search_full by assumption.
    destruct (search_extends big (S fuel) blockNum startBlock lb)
      as [extra ->].
    now rewrite firstn_full.
  - destruct (firstn_short _ _ F) as [E L]. rewrite E. simpl.
    destruct (startBlock <? blockNum); simpl; [|now rewrite E].
    rewrite !below_iff.
    replace (List.length lb <? capacity small)%nat with true
      by (symmetry; apply Nat.ltb_lt; lia).
    replace (List.length lb <? capacity big)%nat with true
      by (symmetry; apply Nat.ltb_lt; lia).
    rewrite <- IH. f_equal. unfold search_block.
    destruct (Client.getBlock client blockNum) as [block|];
      [|now rewrite E].
    rewrite <- visit_all_prefix. now rewrite E.
Qed.

End OneScan.

(** *** Order on a node that numbers its blocks *)

Lemma descending_snoc (l : list Record.t) (r : Record.t) :
  descending l ->
  (forall x, In x l -> Record.blockNumber r <= Record.blockNumber x) ->
  descending (l ++ [r]).
Proof.
  unfold descending. induction l as [|y l IH]; intros D H; simpl.
  - constructor; constructor.
  - inversion D as [|? ? Dl Fy]; subst. constructor.
    + apply IH; [assumption|]. intros x Hx. apply H. now right.
    + apply Forall_app. split; [assumption|].
      constructor; [|constructor]. apply H. now left.
Qed.

Lemma sort_descending_same (l : list Record.t) :
  descending l -> sort newest_first l = l.
Proof.
  unfold descending. induction l as [|x r IH]; intros D; [reflexivity|].
  inversion D as [|? ? Dr Fx]; subst. simpl. rewrite IH by assumption.
  destruct r as [|y r']; [reflexivity|]. simpl.
  inversion Fx as [|? ? Hy _]; subst. unfold newer_or_same in Hy.
  replace (0 <? newest_first x y) with false; [reflexivity|].
  symmetry. apply Z.ltb_ge. unfold newest_first. lia.
Qed.

Lemma visit_all_above client toISOString address limit block txs :
  forall l, above (Block.number block) l ->
    above (Block.number block)
      (visit_all client toISOString address limit block txs l).
Proof.
  induction txs as [|tx rest IH]; intros l A; simpl; [assumption|].
  destruct tx as [h|txObj]; simpl; [now apply IH|].
  destruct (isInvolved txObj address && below limit l); [|now apply IH].
  destruct (record_of client toISOString block txObj) as [r|] eqn:Hr;
    [|assumption].
  apply record_of_fields in Hr as (_ & _ & _ & Hn & _).
  apply IH. destruct A as [D G]. split.
  - apply descending_snoc; [assumption|].
    intros x Hx. rewrite Hn. now apply G.
  - intros x Hx. apply in_app_iff in Hx as [Hx|[<-|[]]]; [now apply G|].
    rewrite Hn. lia.
Qed.

Lemma search_above client toISOString address limit (fuel : nat) :
  numbers_blocks client ->
  forall blockNum startBlock l,
    above blockNum l ->
    descending
      (search client toISOString fuel address limit blockNum startBlock l).
Proof.
  intros Honest. induction fuel as [|fuel IH];
    intros blockNum startBlock l A; simpl.
  - apply A.
  - destruct ((startBlock <? blockNum) && below limit l); [|apply A].
    apply IH.
    assert (A' : above blockNum
                   (search_block client toISOString address limit
                      blockNum l)).
    { unfold search_block.
      destruct (Client.getBlock client blockNum) as [block|] eqn:Hb;
        [|assumption].
      rewrite <- (Honest blockNum block Hb) in A |- *.
      now apply visit_all_above. }
    destruct A' as [D G]. split; [assumption|].
    intros x Hx. specialize (G x Hx). lia.
Qed.

Lemma history_transactions client toISOString address limit h :
  getTransactionHistory client toISOString address limit = Ok h ->
  exists latestBlock,
    Client.getBlockNumber client = Ok latestBlock /\
    History.transactions h =
      sort newest_first
        (search client toISOString window address limit latestBlock
           (latestBlock - Z.min 100 latestBlock) []).
Proof.
  unfold getTransactionHistory.
  destruct (Client.getBlockNumber client) as [latestBlock|]; [|discriminate].
  intros E. exists latestBlock. split; [reflexivity|]. revert E.
  generalize (search client toISOString window address limit latestBlock
                (latestBlock - Z.min 100 latestBlock) []).
  intros found E.
  assert (Eh : h = {| History.transactions := sort newest_first found;
                      History.totalCount :=
                        List.length (sort newest_first found) |})
    by congruence.
  rewrite Eh. reflexivity.
Qed.

(** X12.  On a node that numbers its blocks as asked, the limit only cuts
    the list: the history for a smaller limit is the beginning of the
    history for a larger one, as many entries as the smaller limit lets in.
    The entries are the newest matches, in the order of the scan. *)
Theorem getTransactionHistory_limit_prefix
    client toISOString address (small big : Q) hs hb :
  numbers_blocks client ->
  (small <= big)%Q ->
  getTransactionHistory client toISOString address small = Ok hs ->
  getTransactionHistory client toISOString address big = Ok hb ->
  History.transactions hs
  = firstn (capacity small) (History.transactions hb).
Proof.
  intros Honest Hle Hs Hb.
  apply history_transactions in Hs as (latest & El & ->).
  apply history_transactions in Hb as (latest' & El' & ->).
  assert (latest' = latest) by congruence. subst latest'.
  assert (A : above latest []) by (split; [constructor | intros x []]).
  rewrite !sort_descending_same
    by (apply search_above; assumption).
  pose proof (search_prefix client toISOString address small big
                (capacity_mono small big Hle) window latest
                (latest - Z.min 100 latest) []) as P.
  now rewrite firstn_nil in P.
Qed.

Lemma getTransactionHistory_limit_prefix_witness :
  History.transactions (Scenario.received 2)
  = firstn (capacity 2) (History.transactions (Scenario.received 10)).
Proof.
  apply (getTransactionHistory_limit_prefix
           Scenario.receiving_only JS.toISOString Scenario.me 2 10).
  - intros blockNum block H. simpl in H. injection H as <-. reflexivity.
  - discriminate.
  - vm_compute. reflexivity.
  - vm_compute. reflexivity.
Defined.

(** *** Wallet activity *)

(** X13.  What a wallet summary holds.  Its [transactionCount] is the count
    the chain reports; its recent list has at most 5 entries, one for each
    record of the history of limit 5, in the same order and with that
    record's hash, type, value and time; and [lastActivity] is null exactly
    when the history is empty and the count is not positive. *)
Theorem getWalletActivity_summary
    client toISOString Date_now Math_random address activity :
  getWalletActivity client toISOString Date_now Math_random address
    = Ok activity ->
  exists h,
    getTransactionHistory client toISOString address 5 = Ok h /\
    getTransactionCount client address
      = Ok (Activity.transactionCount activity) /\
    (List.length (Activity.recentTransactions activity) <= 5)%nat /\
    map Recent.hash (Activity.recentTransactions activity)
      = map Record.hash (History.transactions h) /\
    map Recent.type (Activity.recentTransactions activity)
      = map Record.type (History.transactions h) /\
    map Recent.amount (Activity.recentTransactions activity)
      = map Record.value (History.transactions h) /\
    map Recent.timestamp (Activity.recentTransactions activity)
      = map Record.timestamp (History.transactions h) /\
    (Activity.lastActivity activity = None <->
     History.transactions h = [] /\
     Activity.transactionCount activity <= 0).
Proof.
  unfold getWalletActivity.
  destruct (getTransactionCount client address) as [count|]; [|discriminate].
  destruct (getTransactionHistory client toISOString address 5)
    as [h|] eqn:Hh; [|discriminate].
  pose proof (TransactionsProofs.history_shape _ _ _ _ _ Hh)
    as (Hlen & _ & _ & _).
  change (capacity 5) with 5%nat in Hlen.
  intros E. exists h. split; [reflexivity|].
  destruct (History.transactions h) as [|newest rest] eqn:Ht.
  - destruct (0 <? count) eqn:C.
    + destruct (toISOString
                  (Date_now - daysAgo Math_random count * 24 * 60 * 60 * 1000))
        as [iso|]; [|discriminate].
      injection E as <-. repeat split; simpl; try reflexivity.
      * simpl in Hlen. lia.
      * discriminate.
      * intros [_ H]. apply Z.ltb_lt in C. lia.
    + injection E as <-. repeat split; simpl; try reflexivity.
      * lia.
      * apply Z.ltb_ge in C. lia.
  - injection E as <-. simpl. rewrite length_map, !map_map. simpl.
    repeat split; try reflexivity; try assumption; try discriminate.
    intros [H _]. discriminate.
Qed.

Lemma getWalletActivity_summary_witness :
  exists h,
    getTransactionHistory Scenario.receiving_only JS.toISOString
      Scenario.me 5 = Ok h /\
    getTransactionCount Scenario.receiving_only Scenario.me = Ok 0 /\
    map Record.hash (History.transactions h) = ["0x01"; "0x02"; "0x03"].
Proof.
  destruct (getWalletActivity_summary
              Scenario.receiving_only JS.toISOString Scenario.now
              Scenario.draw Scenario.me
              {| Activity.transactionCount := 0;
                 Activity.lastActivity := Some "2023-11-14T22:13:20.000Z";
                 Activity.recentTransactions :=
                   map (fun hash =>
                          {| Recent.hash := hash; Recent.type := transfer;
                             Recent.amount := "5";
                             Recent.timestamp := "2023-11-14T22:13:20.000Z" |})
                       ["0x01"; "0x02"; "0x03"] |})
    as (h & Hh & Hc & _ & Hm & _).
  - vm_compute. reflexivity.
  - exists h. repeat split; try assumption. now rewrite <- Hm.
Defined.

Lemma daysAgo_range (Math_random : Q) (transactionCount : Z) :
  (0 <= Math_random)%Q -> (Math_random < 1)%Q ->
  1 <= daysAgo Math_random transactionCount <= 179 /\
  (10 < transactionCount -> daysAgo Math_random transactionCount <= 89) /\
  (100 < transactionCount -> daysAgo Math_random transactionCount <= 29).
Proof.
  intros H0 H1. unfold daysAgo.
  assert (F : forall k, 0 < k ->
    0 <= Qfloor (Math_random * inject_Z k) <= k - 1).
  { intros k Hk. split.
    - change 0 with (Qfloor (inject_Z 0)). apply Qfloor_resp_le.
      apply Qmult_le_0_compat; [assumption|].
      change (inject_Z 0 <= inject_Z k)%Q. rewrite <- Zle_Qle. lia.
    - assert (L : (inject_Z (Qfloor (Math_random * inject_Z k))
                   < inject_Z k)%Q).
      { eapply Qle_lt_trans; [apply Qfloor_le|].
        rewrite <- (Qmult_1_l (inject_Z k)) at 2.
        apply Qmult_lt_compat_r; [|assumption].
        change (inject_Z 0 < inject_Z k)%Q. rewrite <- Zlt_Qlt. lia. }
      rewrite <- Zlt_Qlt in L. lia. }
  destruct (100 <? transactionCount) eqn:C100.
  - pose proof (F 30 ltac:(lia)). apply Z.ltb_lt in C100. lia.
  - apply Z.ltb_ge in C100. destruct (10 <? transactionCount) eqn:C10.
    + pose proof (F 90 ltac:(lia)). lia.
    + apply Z.ltb_ge in C10. pose proof (F 180 ltac:(lia)). lia.
Qed.

(** X14.  The estimate for an address with a count but no recent record.
    When the count is positive, the history is empty and [Math.random()] is
    in its range [0, 1), [lastActivity] is the time a whole number of days
    before now: between 1 and 179 days, at most 89 when the count exceeds
    10 and at most 29 when it exceeds 100.  The recent list is empty. *)
Theorem getWalletActivity_estimate
    client toISOString Date_now Math_random address count h activity :
  (0 <= Math_random)%Q -> (Math_random < 1)%Q ->
  getTransactionCount client address = Ok count ->
  0 < count ->
  getTransactionHistory client toISOString address 5 = Ok h ->
  History.transactions h = [] ->
  getWalletActivity client toISOString Date_now Math_random address
    = Ok activity ->
  Activity.recentTransactions activity = [] /\
  exists days,
    1 <= days <= 179 /\
    (10 < count -> days <= 89) /\ (100 < count -> days <= 29) /\
    toISOString (Date_now - days * 86400000)
      = Activity.lastActivity activity /\
    Activity.lastActivity activity <> None.
Proof.
  intros H0 H1 Hc Hpos Hh Ht. unfold getWalletActivity.
  rewrite Hc, Hh, Ht.
  replace (0 <? count) with true by (symmetry; now apply Z.ltb_lt).
  replace (daysAgo Math_random count * 24 * 60 * 60 * 1000)
    with (daysAgo Math_random count * 86400000) by lia.
  destruct (toISOString (Date_now - daysAgo Math_random count * 86400000))
    as [iso|] eqn:Hi; [|discriminate].
  intros [= <-]. simpl. split; [reflexivity|].
  exists (daysAgo Math_random count).
  destruct (daysAgo_range Math_random count H0 H1) as (R & R10 & R100).
  repeat split; try apply R; try assumption. discriminate.
Qed.

Lemma getWalletActivity_estimate_witness :
  exists days,
    1 <= days <= 179 /\
    JS.toISOString (Scenario.now - days * 86400000)
      = Some "2023-08-16T22:15:00.000Z".
Proof.
  destruct (getWalletActivity_estimate
              Scenario.calling JS.toISOString Scenario.now Scenario.draw
              Scenario.stranger 3
              (history_of (getTransactionHistory Scenario.calling
                             JS.toISOString Scenario.stranger 5))
              {| Activity.transactionCount := 3;
                 Activity.lastActivity := Some "2023-08-16T22:15:00.000Z";
                 Activity.recentTransactions := [] |})
    as (_ & days & R & _ & _ & Hi & _).
  - discriminate.
  - reflexivity.
  - reflexivity.
  - reflexivity.
  - vm_compute. reflexivity.
  - vm_compute. reflexivity.
  - vm_compute. reflexivity.
  - exists days. split; assumption.
Defined.

Lemma toISOString_in_range (ms : Z) :
  Z.abs ms <= 8640000000000000 -> JS.toISOString ms <> None.
Proof.
  intros H. unfold JS.toISOString.
  replace (8640000000000000 <? Z.abs ms) with false
    by (symmetry; apply Z.ltb_ge; assumption).
  destruct (JS.civil_from_days (ms / 86400000)) as [[y m] d]. discriminate.
Qed.

(** X15.  With the runtime's own [Date], and a clock between the epoch and
    the last representable time, [getWalletActivity] fails in three cases
    only, each time with [Failed to fetch wallet activity: ] before the
    cause: when [getPublicClient] throws, the cause being that error; when
    the count cannot be read; and when the block height cannot be read,
    the cause being the history's own message.  When the client is
    obtained and both are read it returns a result. *)
Theorem getWalletActivity_failures
    getPublicClient Date_now Math_random address :
  0 <= Date_now <= 8640000000000000 ->
  (forall message,
     getPublicClient = Err message ->
     Exported.getWalletActivity getPublicClient JS.toISOString Date_now
       Math_random address
       = Err ("Failed to fetch wallet activity: " ++ message)) /\
  (forall client message,
     getPublicClient = Ok client ->
     Client.getTransactionCount client address = Err message ->
     Exported.getWalletActivity getPublicClient JS.toISOString Date_now
       Math_random address
       = Err ("Failed to fetch wallet activity: " ++ message)) /\
  (forall client count message,
     getPublicClient = Ok client ->
     Client.getTransactionCount client address = Ok count ->
     Client.getBlockNumber client = Err message ->
     Exported.getWalletActivity getPublicClient JS.toISOString Date_now
       Math_random address
       = Err ("Failed to fetch wallet activity: "
              ++ "Failed to fetch transaction history: " ++ message)) /\
  (forall client count latestBlock,
     getPublicClient = Ok client ->
     Client.getTransactionCount client address = Ok count ->
     Client.getBlockNumber client = Ok latestBlock ->
     exists activity,
       Exported.getWalletActivity getPublicClient JS.toISOString Date_now
         Math_random address = Ok activity /\
       getWalletActivity client JS.toISOString Date_now Math_random address
         = Ok activity).
Proof.
  intros Hnow. split; [|split; [|split]].
  - intros message ->. reflexivity.
  - intros client message -> E. unfold Exported.getWalletActivity.
    cbn [Exported.getTransactionCount]. now rewrite E.
  - intros client count message -> E Eb. unfold Exported.getWalletActivity.
    cbn [Exported.getTransactionCount]. rewrite E.
    unfold Exported.getTransactionHistory. now rewrite Eb.
  - intros client count latestBlock -> E Eb.
    rewrite (proj2 (proj2 (exported_on_client client JS.toISOString
                             Date_now Math_random address 0))).
    unfold getWalletActivity, getTransactionCount. rewrite E.
    destruct (TransactionsProofs.history_returns
                client JS.toISOString address 5 latestBlock Eb) as [h ->].
    destruct (History.transactions h); [|eauto].
    destruct (0 <? count); [|eauto].
    destruct (JS.toISOString
                (Date_now - daysAgo Math_random count * 24 * 60 * 60 * 1000))
      eqn:Hi; [eauto|].
    exfalso. revert Hi. apply toISOString_in_range.
    unfold daysAgo. lia.
Qed.

Lemma getWalletActivity_failures_witness :
  Exported.getWalletActivity (Err "Unsupported network: arctic")
    JS.toISOString Scenario.now Scenario.draw Scenario.stranger
    = Err "Failed to fetch wallet activity: Unsupported network: arctic" /\
  exists activity,
    Exported.getWalletActivity (Ok Scenario.calling) JS.toISOString
      Scenario.now Scenario.draw Scenario.stranger = Ok activity /\
    getWalletActivity Scenario.calling JS.toISOString Scenario.now
      Scenario.draw Scenario.stranger = Ok activity.
Proof.
  split.
  - apply (proj1 (getWalletActivity_failures
                    (Err "Unsupported network: arctic") Scenario.now
                    Scenario.draw Scenario.stranger
                    ltac:(split; discriminate))).
    reflexivity.
  - apply (proj2 (proj2 (proj2 (getWalletActivity_failures
                                  (Ok Scenario.calling) Scenario.now
                                  Scenario.draw Scenario.stranger
                                  ltac:(split; discriminate))))
             Scenario.calling 3 1000);
      reflexivity.
Defined.

End TransactionsMore.

(** * Further properties of the tool handlers *)

Module ToolsMore.
Import Tools.

Local Open Scope Q_scope.

Lemma validLimit_range (limit : Q) :
  1 <= validLimit limit /\ validLimit limit <= 50.
Proof.
  unfold validLimit. split; [|apply Q.le_min_r].
  apply Q.min_glb; [apply Q.le_max_l | discriminate].
Qed.

Lemma validLimit_low (limit : Q) :
  limit <= 1 -> validLimit limit = 1.
Proof.
  intros H. unfold validLimit, Qmax, Qmin, GenericMinMax.gmax,
    GenericMinMax.gmin.
  destruct (1 ?= limit) eqn:C.
  - reflexivity.
  - exfalso. rewrite <- Qlt_alt in C.
    apply (Qlt_irrefl 1). now apply Qlt_le_trans with limit.
  - reflexivity.
Qed.

(** X16.  The [get_transaction_history] tool never returns more than 50
    transactions, whatever limit is asked for; its [totalTransactions] is
    the number it returns; and a limit of 1 or less, 0 and negative limits
    included, is served as a limit of 1. *)
Theorem get_transaction_history_clamped
    client toISOString address (limit : option Q) :
  (forall payload,
     get_transaction_history client toISOString address limit = Ok payload ->
     (List.length (HistoryPayload.transactions payload) <= 50)%nat /\
     HistoryPayload.totalTransactions payload
       = List.length (HistoryPayload.transactions payload)) /\
  (forall l, limit = Some l -> l <= 1 ->
     get_transaction_history client toISOString address limit
     = get_transaction_history client toISOString address (Some 1)).
Proof.
  split.
  - intros payload. unfold get_transaction_history.
    set (asked := match limit with Some l => l | None => 10 end).
    destruct (Transactions.getTransactionHistory client toISOString address
                (validLimit asked)) as [history|] eqn:Hh; [|discriminate].
    apply TransactionsProofs.history_shape in Hh as (Hlen & _ & _ & Hc).
    intros [= <-]. simpl. rewrite length_map. split; [|assumption].
    assert (C : (Transactions.capacity (validLimit asked) <= 50)%nat).
    { unfold Transactions.capacity.
      pose proof (Qceiling_resp_le _ _ (proj2 (validLimit_range asked))) as L.
      change (Qceiling 50) with 50%Z in L. lia. }
    lia.
  - intros l -> Hl. unfold get_transaction_history.
    now rewrite (validLimit_low l Hl).
Qed.

Lemma get_transaction_history_clamped_witness :
  get_transaction_history Scenario.receiving_only JS.toISOString
    Scenario.me (Some (-3))
  = get_transaction_history Scenario.receiving_only JS.toISOString
      Scenario.me (Some 1).
Proof.
  apply (proj2 (get_transaction_history_clamped
                  Scenario.receiving_only JS.toISOString Scenario.me
                  (Some (-3))) (-3)).
  - reflexivity.
  - discriminate.
Defined.

(** *** The score grows with the count and with the balance *)

Lemma add_if_mono (c c' : bool) (w x x' : Q) :
  (c = true -> c' = true) -> 0 <= w -> x <= x' ->
  add_if c w x <= add_if c' w x'.
Proof.
  intros Hc Hw Hx. unfold add_if. destruct c.
  - rewrite (Hc eq_refl). now apply Qplus_le_compat; [|apply Qle_refl].
  - destruct c'; [|assumption].
    rewrite <- (Qplus_0_r x). now apply Qplus_le_compat.
Qed.

Lemma above_mono (k n n' : Z) :
  (n <= n')%Z -> (k <? n)%Z = true -> (k <? n')%Z = true.
Proof.
  intros H C. apply Z.ltb_lt in C. apply Z.ltb_lt. lia.
Qed.

Lemma lt_mono (k v v' : Q) :
  v <= v' -> lt (Some k) (Some v) = true -> lt (Some k) (Some v') = true.
Proof.
  unfold lt. intros H C. apply negb_true_iff in C. apply negb_true_iff.
  destruct (Qle_bool v' k) eqn:D; [|reflexivity].
  apply Qle_bool_iff in D.
  assert (L : v <= k) by (now apply Qle_trans with v').
  apply Qle_bool_iff in L. congruence.
Qed.

(** X17.  The risk score never falls when the transaction count or the
    balance rises, all else being equal. *)
Theorem riskScore_monotone
    Date_now Date_getTime parseFloat lastActivity address
    (count count' : Z) (balance balance' : string) (value value' : Q)
    (score score' : Q) :
  (count <= count')%Z ->
  parseFloat balance = Some value ->
  parseFloat balance' = Some value' ->
  value <= value' ->
  riskScore Date_now Date_getTime parseFloat
    count lastActivity balance address = Some score ->
  riskScore Date_now Date_getTime parseFloat
    count' lastActivity balance' address = Some score' ->
  score <= score'.
Proof.
  intros Hc Hb Hb' Hv. unfold riskScore. cbv zeta. rewrite Hb, Hb'.
  destruct (JS.parseInt (JS.slice_last 4 address) 16) as [[n|[|]]|];
    try discriminate.
  2: { intros [= <-] [= <-]. apply Qle_refl. }
  intros [= <-] [= <-].
  apply Q.min_le_compat_r. apply Qplus_le_compat; [|apply Qle_refl].
  assert (T : forall x x', x <= x' ->
    match lastActivity with
    | Some last =>
        if (last =? "")%string then x
        else if lt (daysSince Date_now Date_getTime last) (Some 1)
             then x + 0.1
             else add_if (lt (daysSince Date_now Date_getTime last)
                             (Some 7)) 0.05 x
    | None => x
    end <=
    match lastActivity with
    | Some last =>
        if (last =? "")%string then x'
        else if lt (daysSince Date_now Date_getTime last) (Some 1)
             then x' + 0.1
             else add_if (lt (daysSince Date_now Date_getTime last)
                             (Some 7)) 0.05 x'
    | None => x'
    end).
  { intros x x' Hx. destruct lastActivity as [last|]; [|exact Hx].
    destruct (last =? "")%string; [exact Hx|].
    destruct (lt (daysSince Date_now Date_getTime last) (Some 1)).
    - now apply Qplus_le_compat; [|apply Qle_refl].
    - apply add_if_mono; [auto | discriminate | exact Hx]. }
  do 2 (apply add_if_mono; [now apply lt_mono | discriminate |]).
  apply T.
  do 5 (apply add_if_mono; [now apply above_mono | discriminate |]).
  apply Qle_refl.
Qed.

Lemma riskScore_monotone_witness :
  (8977250 # 65535000 <= 18807500000 # 65535000000)%Q.
Proof.
  apply (riskScore_monotone 0 (fun _ => None)
           (fun s => if String.eqb s "0" then Some 0 else Some 2000)
           None "0x000000000000000000000000000000000000dEaD"
           0 20 "0" "2000" 0 2000).
  - discriminate.
  - reflexivity.
  - reflexivity.
  - discriminate.
  - vm_compute. reflexivity.
  - vm_compute. reflexivity.
Defined.

End ToolsMore.

(** * Properties of the REST helpers *)

Module RestMore.
Import Rest.

(** Induction on values, with the hypothesis for every item of an array
    and every property of an object. *)
Lemma value_induction (P : value -> Prop) :
  P VUndefined -> P VNull ->
  (forall b, P (VBool b)) -> (forall q, P (VNumber q)) ->
  (forall s, P (VString s)) -> (forall z, P (VBigInt z)) ->
  (forall items, Forall P items -> P (VArray items)) ->
  (forall props, Forall (fun kv => P (snd kv)) props -> P (VObject props)) ->
  forall v, P v.
Proof.
  intros Hu Hn Hb Hq Hs Hz Ha Ho.
  fix IH 1.
  intros [| |b|q|s|z|items|props];
    [exact Hu | exact Hn | apply Hb | apply Hq | apply Hs | apply Hz | | ].
  - apply Ha. induction items as [|x items IHitems]; constructor.
    + apply IH.
    + exact IHitems.
  - apply Ho. induction props as [|[k x] props IHprops]; constructor.
    + apply IH.
    + exact IHprops.
Qed.

Lemma serialize_bigint_free (v : value) :
  bigint_free (serializeBigInt v) = true.
Proof.
  induction v using value_induction; try reflexivity.
  - simpl. rewrite forallb_forall. intros x Hx.
    apply in_map_iff in Hx as (y & <- & Hy).
    rewrite Forall_forall in H. now apply H.
  - simpl. rewrite forallb_forall. intros x Hx.
    apply in_map_iff in Hx as ([k y] & <- & Hy).
    rewrite Forall_forall in H. apply (H (k, y) Hy).
Qed.

Lemma serialize_fixes_bigint_free (v : value) :
  bigint_free v = true -> serializeBigInt v = v.
Proof.
  induction v using value_induction; try reflexivity.
  - discriminate.
  - simpl. intros F. f_equal. rewrite forallb_forall in F.
    rewrite Forall_forall in H.
    rewrite <- (map_id items) at 2. apply map_ext_in.
    intros x Hx. apply H; [assumption | now apply F].
  - simpl. intros F. f_equal. rewrite forallb_forall in F.
    rewrite Forall_forall in H.
    rewrite <- (map_id props) at 2. apply map_ext_in.
    intros [k x] Hx. f_equal. apply (H (k, x) Hx). apply (F (k, x) Hx).
Qed.

(** X18.  For plain data, with no property named [__proto__],
    [serializeBigInt] leaves no [bigint] at any depth of the value;
    it returns a value without [bigint] unchanged, so applying it twice is
    applying it once; a [bigint] becomes the decimal string that reads back
    as the same integer; and an object keeps its keys in their order, an
    array its length. *)
Theorem serializeBigInt_removes_every_bigint (v : value) :
  plain v = true ->
  bigint_free (serializeBigInt v) = true /\
  (bigint_free v = true -> serializeBigInt v = v) /\
  serializeBigInt (serializeBigInt v) = serializeBigInt v /\
  (forall z, v = VBigInt z ->
     exists s, serializeBigInt v = VString s /\
               JS.BigInt_of_string s = Some z) /\
  keys_of (serializeBigInt v) = keys_of v /\
  length_of (serializeBigInt v) = length_of v.
Proof.
  intros _.
  split; [apply serialize_bigint_free|].
  split; [apply serialize_fixes_bigint_free|].
  split; [apply serialize_fixes_bigint_free, serialize_bigint_free|].
  split; [|split].
  - intros z ->. eexists. split; [reflexivity|].
    apply TransactionsProofs.BigInt_of_toString.
  - destruct v; try reflexivity. simpl. rewrite map_map.
    apply map_ext. now intros [k x].
  - destruct v; try reflexivity. simpl. apply length_map.
Qed.

Lemma serializeBigInt_removes_every_bigint_witness :
  serializeBigInt
    (VObject [("number", VBigInt 1000); ("hash", VString "0x01");
              ("transactions", VArray [VBigInt (-5); VNull])])
  = VObject [("number", VString "1000"); ("hash", VString "0x01");
             ("transactions", VArray [VString "-5"; VNull])].
Proof.
  transitivity
    (serializeBigInt
       (VObject [("number", VString "1000"); ("hash", VString "0x01");
                 ("transactions", VArray [VString "-5"; VNull])])).
  - reflexivity.
  - refine (proj1 (proj2 (serializeBigInt_removes_every_bigint _ _)) _);
      reflexivity.
Defined.

(** *** Session identifiers *)

Lemma draw_range (q : Q) :
  (0 <= q)%Q -> (q < 1)%Q -> 0 <= or_zero (q * 16) <= 15.
Proof.
  intros H0 H1. unfold or_zero.
  assert (T : 0 <= Z.quot (Qnum (q * 16)) (Zpos (Qden (q * 16))) <= 15).
  { assert (N : 0 <= Qnum (q * 16)).
    { destruct q as [n d]. unfold Qle in H0. simpl in *. lia. }
    rewrite Z.quot_div_nonneg by lia.
    assert (L : Qnum (q * 16) < 16 * Zpos (Qden (q * 16))).
    { destruct q as [n d]. unfold Qlt in H1. simpl in *. lia. }
    split; [apply Z.div_pos; lia|].
    assert (Qnum (q * 16) / Zpos (Qden (q * 16)) < 16)
      by (apply Z.div_lt_upper_bound; lia).
    lia. }
  rewrite Z.mod_small by lia. lia.
Qed.

Lemma digit_cases (r : Z) :
  0 <= r <= 15 ->
  r = 0 \/ r = 1 \/ r = 2 \/ r = 3 \/ r = 4 \/ r = 5 \/ r = 6 \/ r = 7 \/
  r = 8 \/ r = 9 \/ r = 10 \/ r = 11 \/ r = 12 \/ r = 13 \/ r = 14 \/ r = 15.
Proof. lia. Qed.

(** What the callback returns when [Math.random()] is in its range: one
    hexadecimal digit for an [x], one of [8 9 a b] for a [y]. *)
Lemma replacement_digit (Math_random : nat -> Q) (c : ascii) (call : nat) :
  (0 <= Math_random call)%Q -> (Math_random call < 1)%Q ->
  exists d, replacement Math_random c call = String d EmptyString /\
    JS.atom_accepts hex d = true /\
    (Ascii.eqb c "x" = false -> JS.atom_accepts variant d = true).
Proof.
  intros H0 H1. unfold replacement.
  pose proof (digit_cases _ (draw_range _ H0 H1)) as C.
  destruct (Ascii.eqb c "x");
    repeat (destruct C as [-> | C]); try rewrite C;
    eexists; (split; [reflexivity | split; [reflexivity|]]);
    (reflexivity || discriminate).
Qed.

Lemma test_cons (a : JS.atom) (re : list JS.atom) (c : ascii) (s : string) :
  JS.test (a :: re) (String c s) = JS.atom_accepts a c && JS.test re s.
Proof.
  reflexivity.
Qed.

Lemma replace_xy_matches (Math_random : nat -> Q) :
  (forall call, (0 <= Math_random call)%Q /\ (Math_random call < 1)%Q) ->
  forall template call,
    JS.test (pattern_of template) (replace_xy Math_random template call)
    = true.
Proof.
  intros Hr. induction template as [|c rest IH]; intros call.
  - reflexivity.
  - cbn [pattern_of replace_xy].
    destruct (Hr call) as [H0 H1].
    destruct (replacement_digit Math_random c call H0 H1)
      as (d & E & Hh & Hv).
    destruct (Ascii.eqb c "x") eqn:Cx; cbn [orb].
    + rewrite E. cbn [append]. now rewrite test_cons, Hh, IH.
    + destruct (Ascii.eqb c "y") eqn:Cy.
      * rewrite E. cbn [append]. now rewrite test_cons, (Hv eq_refl), IH.
      * rewrite test_cons. cbn [JS.atom_accepts].
        now rewrite Ascii.eqb_refl, IH.
Qed.

(** X19.  Whenever [Math.random()] stays in its range [0, 1), the session
    identifier [generateSessionId] makes has the shape of a version-4
    UUID: 36 characters, hyphens after the 8th, 12th, 16th and 20th digit,
    a [4] leading the third group, one of [8 9 a b] leading the fourth, and
    lower-case hexadecimal digits everywhere else. *)
Theorem generateSessionId_is_uuid_v4 (Math_random : nat -> Q) :
  (forall call, (0 <= Math_random call)%Q /\ (Math_random call < 1)%Q) ->
  JS.test uuid_v4 (generateSessionId Math_random) = true /\
  String.length (generateSessionId Math_random) = 36%nat.
Proof.
  intros Hr.
  assert (M : JS.test uuid_v4 (generateSessionId Math_random) = true)
    by (apply (replace_xy_matches Math_random Hr
                 "xxxxxxxx-xxxx-4xxx-yxxx-xxxxxxxxxxxx" 0%nat)).
  split; [exact M|].
  assert (L : forall re s, JS.test re s = true ->
                String.length s = List.length re).
  { induction re as [|a re IH]; intros [|c s]; simpl; try discriminate.
    - reflexivity.
    - intros H. apply andb_true_iff in H as [_ H]. f_equal. now apply IH. }
  apply (L _ _ M).
Qed.

Lemma generateSessionId_is_uuid_v4_witness :
  JS.test uuid_v4
    (generateSessionId (fun call => if Nat.even call then 1 # 4 else 15 # 16))
  = true.
Proof.
  apply (generateSessionId_is_uuid_v4
           (fun call => if Nat.even call then 1 # 4 else 15 # 16)).
  intros call. destruct (Nat.even call); split; (discriminate || reflexivity).
Defined.

End RestMore.

(** * Further properties of address validation *)

Module UtilsMore.
Import Utils.

Lemma toLowerCase_length (s : string) :
  String.length (JS.toLowerCase s) = String.length s.
Proof.
  induction s as [|c s IH]; simpl; [reflexivity | now rewrite IH].
Qed.

Lemma toLowerCase_chars (set : string) (s : string) :
  (forall c, char_in set c = true -> char_in set (JS.lower_char c) = true) ->
  all_in set s -> all_in set (JS.toLowerCase s).
Proof.
  intros Hset. induction s as [|a s IH]; intros Hall c Hc; simpl in Hc.
  - contradiction.
  - destruct Hc as [<- | Hc].
    + apply Hset, Hall. now left.
    + apply IH; [|assumption]. intros x Hx. apply Hall. now right.
Qed.

Lemma lower_hex (c : ascii) :
  char_in hex_digits c = true -> char_in hex_digits (JS.lower_char c) = true.
Proof.
  intros H. destruct c as [[] [] [] [] [] [] [] []];
    vm_compute in H; try discriminate H; reflexivity.
Qed.

Lemma lower_bech (c : ascii) :
  char_in bech_chars c = true -> char_in bech_chars (JS.lower_char c) = true.
Proof.
  intros H. destruct c as [[] [] [] [] [] [] [] []];
    vm_compute in H; try discriminate H; reflexivity.
Qed.

Lemma valid_lowered (address : string) :
  valid_evm_address address \/ valid_sei_address address ->
  String.length address = 42%nat /\
  (valid_evm_address (JS.toLowerCase address) \/
   valid_sei_address (JS.toLowerCase address)).
Proof.
  intros [(h & -> & Hl & Hall) | (b & -> & Hl & Hall)].
  - split; [simpl; now rewrite Hl|]. left.
    exists (JS.toLowerCase h). split; [reflexivity|].
    split; [now rewrite toLowerCase_length|].
    apply toLowerCase_chars; [apply lower_hex | assumption].
  - split; [simpl; now rewrite Hl|]. right.
    exists (JS.toLowerCase b). split; [reflexivity|].
    split; [now rewrite toLowerCase_length|].
    apply toLowerCase_chars; [apply lower_bech | assumption].
Qed.

Lemma validateAddress_valid (address : string) (accepted : string) :
  validateAddress address = Ok accepted ->
  accepted = address /\
  (valid_evm_address address \/ valid_sei_address address).
Proof.
  unfold validateAddress.
  destruct (JS.test evm_regex address) eqn:He.
  - intros [= <-]. split; [reflexivity|]. left.
    now apply UtilsProofs.evm_regex_spec.
  - destruct (JS.test sei_regex address) eqn:Hs; [|discriminate].
    intros [= <-]. split; [reflexivity|]. right.
    now apply UtilsProofs.sei_regex_spec.
Qed.

(** X20.  An address [validateAddress] accepts has exactly 42 characters,
    and it is still accepted after lower-casing, the form in which the
    history compares addresses: the hexadecimal digits of an EVM address
    may be in either case, and no checksum is looked at. *)
Theorem validateAddress_length_and_case (address accepted : string) :
  validateAddress address = Ok accepted ->
  accepted = address /\
  String.length address = 42%nat /\
  validateAddress (JS.toLowerCase address) = Ok (JS.toLowerCase address).
Proof.
  intros H. apply validateAddress_valid in H as [-> V].
  destruct (valid_lowered address V) as [L W].
  repeat split; try assumption.
  unfold validateAddress. destruct W as [W|W].
  - apply UtilsProofs.evm_regex_spec in W. now rewrite W.
  - apply UtilsProofs.sei_regex_spec in W. rewrite W.
    now destruct (JS.test evm_regex (JS.toLowerCase address)).
Qed.

Lemma validateAddress_length_and_case_witness :
  validateAddress "0x000000000000000000000000000000000000dead"
  = Ok "0x000000000000000000000000000000000000dead".
Proof.
  apply (validateAddress_length_and_case
           "0x000000000000000000000000000000000000dEaD"
           "0x000000000000000000000000000000000000dEaD").
  reflexivity.
Defined.

End UtilsMore.

(** * Properties of the NFT activity scan *)

Module ActivityMore.
Import Tools.

Lemma fewer_capacity (limit : Q) (n : nat) :
  fewer limit n = true -> (S n <= Transactions.capacity limit)%nat.
Proof.
  unfold fewer, Transactions.capacity. intros H. apply negb_true_iff in H.
  assert (L : (inject_Z (Z.of_nat n) < limit)%Q).
  { apply Qnot_le_lt. intros C. apply Qle_bool_iff in C. congruence. }
  assert (C : (inject_Z (Z.of_nat n) < inject_Z (Qceiling limit))%Q).
  { eapply Qlt_le_trans; [exact L | apply Qle_ceiling]. }
  rewrite <- Zlt_Qlt in C. lia.
Qed.

Lemma pick_in (list : list string) (q : Q) :
  list <> [] -> (0 <= q)%Q -> (q < 1)%Q ->
  exists x, pick list q = Some x /\ In x list.
Proof.
  intros Hne H0 H1. unfold pick.
  set (n := Z.of_nat (List.length list)).
  assert (Hn : 0 < n) by (destruct list; [contradiction | unfold n; simpl; lia]).
  assert (F : 0 <= Qfloor (q * inject_Z n) < n).
  { split.
    - change 0 with (Qfloor (inject_Z 0)). apply Qfloor_resp_le.
      apply Qmult_le_0_compat; [assumption|].
      change (inject_Z 0 <= inject_Z n)%Q. rewrite <- Zle_Qle. lia.
    - assert (L : (inject_Z (Qfloor (q * inject_Z n)) < inject_Z n)%Q).
      { eapply Qle_lt_trans; [apply Qfloor_le|].
        rewrite <- (Qmult_1_l (inject_Z n)) at 2.
        apply Qmult_lt_compat_r; [|assumption].
        change (inject_Z 0 < inject_Z n)%Q. rewrite <- Zlt_Qlt. lia. }
      now rewrite <- Zlt_Qlt in L. }
  replace (Qfloor (q * inject_Z n) <? 0) with false
    by (symmetry; apply Z.ltb_ge; lia).
  destruct (nth_error list (Z.to_nat (Qfloor (q * inject_Z n)))) as [x|] eqn:E.
  - exists x. split; [reflexivity|]. eapply nth_error_In. exact E.
  - apply nth_error_None in E. unfold n in *. lia.
Qed.

Section Scan.

Variable toISOString : Z -> option string.
Variable Math_random : nat -> Q.
Variable toFixed2 : Z -> string.
Variable limit : Q.
Variables lo hi : Z.

Lemma sorted_snoc (l : list NFTActivity.t) (a : NFTActivity.t) :
  StronglySorted
    (fun x y => NFTActivity.blockNumber y <= NFTActivity.blockNumber x) l ->
  (forall x, In x l -> NFTActivity.blockNumber a <= NFTActivity.blockNumber x) ->
  StronglySorted
    (fun x y => NFTActivity.blockNumber y <= NFTActivity.blockNumber x)
    (l ++ [a]).
Proof.
  induction l as [|y l IH]; intros D H; simpl.
  - constructor; constructor.
  - inversion D as [|? ? Dl Fy]; subst. constructor.
    + apply IH; [assumption|]. intros x Hx. apply H. now right.
    + apply Forall_app. split; [assumption|].
      constructor; [|constructor]. apply H. now left.
Qed.

Lemma scan_tx_shaped blockNum block tx st :
  lo < blockNum <= hi ->
  fewer limit (List.length (fst st)) = true ->
  shaped Math_random toFixed2 limit lo hi blockNum (fst st) ->
  let '(st', o) :=
    scan_tx toISOString Math_random toFixed2 limit blockNum block tx st in
  shaped Math_random toFixed2 limit lo hi blockNum (fst st') /\
  (o = Next -> fewer limit (List.length (fst st')) = true).
Proof.
  intros Hb Hf Hs. destruct st as [acts calls]. simpl in Hf, Hs.
  unfold scan_tx. destruct tx as [h|txObj]; [now split|].
  destruct (Transactions.Tx.to txObj) as [to|]; [|now split].
  destruct (Transactions.Tx.value txObj) as [value|]; [|now split].
  destruct (String.eqb_spec to ""); simpl; [now split|].
  destruct (value =? 0)%Z; simpl; [now split|].
  destruct (0 <? value)%Z; [|now split].
  destruct (toISOString (Transactions.Block.timestamp block * 1000))
    as [iso|]; [|split; [exact Hs | discriminate]].
  cbv zeta. cbn [fst].
  match goal with
  | |- shaped _ _ _ _ _ _ (acts ++ [?a])%list /\ _ => set (pushed := a)
  end.
  split.
  - destruct Hs as (Hlen & Hall & Hsorted & Hge). repeat split.
    + rewrite length_app. simpl. apply fewer_capacity in Hf. lia.
    + apply Forall_app. split; [assumption|]. constructor; [|constructor].
      unfold well_formed, pushed.
      cbn [NFTActivity.blockNumber NFTActivity.to NFTActivity.id
           NFTActivity.txHash NFTActivity.source NFTActivity.type
           NFTActivity.price NFTActivity.collection].
      split; [lia|]. split; [assumption|].
      split; [reflexivity|]. split; [reflexivity|]. split.
      * intros E. now rewrite E.
      * intros Hr. split.
        -- destruct (Hr (S calls)) as [H0 H1].
           apply pick_in; [discriminate | assumption | assumption].
        -- destruct (Hr calls) as [H0 H1].
           apply pick_in; [discriminate | assumption | assumption].
    + apply sorted_snoc; [assumption|]. intros x Hx. now apply Hge.
    + intros x Hx. apply in_app_iff in Hx as [Hx|[<-|[]]]; [now apply Hge|].
      simpl. lia.
  - unfold reached, fewer.
    destruct (Qle_bool limit
                (inject_Z (Z.of_nat (List.length (acts ++ [pushed])))));
      [discriminate | reflexivity].
Qed.

Lemma scan_txs_shaped blockNum block txs :
  lo < blockNum <= hi ->
  forall st,
    fewer limit (List.length (fst st)) = true ->
    shaped Math_random toFixed2 limit lo hi blockNum (fst st) ->
    shaped Math_random toFixed2 limit lo hi blockNum
      (fst (scan_txs toISOString Math_random toFixed2 limit blockNum block
              txs st)).
Proof.
  intros Hb. induction txs as [|tx rest IH]; intros st Hf Hs; simpl.
  - assumption.
  - pose proof (scan_tx_shaped blockNum block tx st Hb Hf Hs) as H.
    destruct (scan_tx toISOString Math_random toFixed2 limit blockNum block
                tx st) as [st' [|]].
    + destruct H as [Hs' Hf']. apply IH; [now apply Hf' | assumption].
    + apply H.
Qed.

Lemma scan_shaped c (fuel : nat) :
  forall blockNum startBlock st,
    lo <= startBlock -> blockNum <= hi ->
    shaped Math_random toFixed2 limit lo hi blockNum (fst st) ->
    shaped Math_random toFixed2 limit lo hi (blockNum - Z.of_nat fuel)
      (fst (scan toISOString Math_random toFixed2 c fuel limit
              blockNum startBlock st)).
Proof.
  assert (W : forall b b' l, b' <= b ->
    shaped Math_random toFixed2 limit lo hi b l ->
    shaped Math_random toFixed2 limit lo hi b' l).
  { intros b b' l Hbb (H1 & H2 & H3 & H4). repeat split; try assumption.
    intros x Hx. specialize (H4 x Hx). lia. }
  induction fuel as [|fuel IH]; intros blockNum startBlock st Hlo Hhi Hs.
  - simpl. apply (W blockNum); [lia | assumption].
  - cbn [scan].
    destruct (startBlock <? blockNum)%Z eqn:C;
      [|apply (W blockNum); [lia | assumption]].
    destruct (fewer limit (List.length (fst st))) eqn:F;
      [|apply (W blockNum); [lia | assumption]].
    cbn [andb]. apply Z.ltb_lt in C.
    replace (blockNum - Z.of_nat (S fuel))
      with (blockNum - 1 - Z.of_nat fuel) by lia.
    apply IH; [assumption | lia |].
    apply (W blockNum); [lia|].
    unfold scan_block.
    destruct (Transactions.Client.getBlock c blockNum); [|assumption].
    apply scan_txs_shaped; [lia | assumption | assumption].
Qed.

End Scan.

Lemma scan_txs_adds toISOString Math_random toFixed2 limit blockNum block
    txs :
  forall st,
    (List.length
       (fst (scan_txs toISOString Math_random toFixed2 limit blockNum block
               txs st))
     <= List.length (fst st) + List.length txs)%nat.
Proof.
  induction txs as [|tx rest IH]; intros st; simpl; [lia|].
  assert (S1 : forall st' o,
    scan_tx toISOString Math_random toFixed2 limit blockNum block tx st
      = (st', o) ->
    (List.length (fst st') <= S (List.length (fst st)))%nat).
  { intros st' o. unfold scan_tx. destruct st as [acts calls].
    destruct tx as [h|txObj]; [intros [= <- _]; simpl; lia|].
    destruct (Transactions.Tx.to txObj) as [to|];
      [|intros [= <- _]; simpl; lia].
    destruct (Transactions.Tx.value txObj) as [value|];
      [|intros [= <- _]; simpl; lia].
    destruct (negb (to =? "")%string && negb (value =? 0)%Z && (0 <? value)%Z);
      [|intros [= <- _]; simpl; lia].
    destruct (toISOString (Transactions.Block.timestamp block * 1000));
      intros [= <- _]; simpl; [rewrite length_app; simpl|]; lia. }
  destruct (scan_tx toISOString Math_random toFixed2 limit blockNum block
              tx st) as [st' [|]] eqn:E.
  - specialize (IH st'). specialize (S1 st' Next eq_refl). lia.
  - specialize (S1 st' Leave eq_refl). lia.
Qed.

Lemma scan_adds toISOString Math_random toFixed2 c limit (fuel : nat) :
  forall blockNum startBlock st,
    (List.length
       (fst (scan toISOString Math_random toFixed2 c fuel limit
               blockNum startBlock st))
     <= List.length (fst st) + 10 * fuel)%nat.
Proof.
  induction fuel as [|fuel IH]; intros blockNum startBlock st; cbn [scan].
  - lia.
  - destruct ((startBlock <? blockNum)%Z
              && fewer limit (List.length (fst st))); [|lia].
    specialize (IH (blockNum - 1)%Z startBlock
                  (scan_block toISOString Math_random toFixed2 c limit
                     blockNum st)).
    assert (B : (List.length
                   (fst (scan_block toISOString Math_random toFixed2 c limit
                           blockNum st))
                 <= List.length (fst st) + 10)%nat).
    { unfold scan_block.
      destruct (Transactions.Client.getBlock c blockNum) as [block|]; [|lia].
      pose proof (scan_txs_adds toISOString Math_random toFixed2 limit
                    blockNum block
                    (firstn 10 (Transactions.Block.transactions block)) st).
      pose proof (firstn_le_length 10
                    (Transactions.Block.transactions block)).
      lia. }
    lia.
Qed.

(** The loop over blocks stops by its own condition: turns beyond the
    distance to [startBlock] change nothing, so the 50 turns of [blocks]
    are all the turns the loop can take. *)
Lemma scan_fuel toISOString Math_random toFixed2 c limit (fuel : nat) :
  forall blockNum startBlock st (extra : nat),
    blockNum - startBlock <= Z.of_nat fuel ->
    scan toISOString Math_random toFixed2 c (fuel + extra) limit
      blockNum startBlock st
    = scan toISOString Math_random toFixed2 c fuel limit
        blockNum startBlock st.
Proof.
  induction fuel as [|fuel IH]; intros blockNum startBlock st extra H.
  - cbn [Nat.add scan]. destruct extra as [|extra]; [reflexivity|].
    cbn [scan].
    replace (startBlock <? blockNum) with false; [reflexivity|].
    symmetry. apply Z.ltb_ge. lia.
  - cbn [Nat.add scan].
    destruct ((startBlock <? blockNum) && fewer limit (List.length (fst st)));
      [|reflexivity].
    apply IH. lia.
Qed.

Lemma blocks_suffice toISOString Math_random toFixed2 c limit
    (latestBlock : Z) (extra : nat) :
  let startBlock := latestBlock - Z.min 50 latestBlock in
  scan toISOString Math_random toFixed2 c (blocks + extra) limit
    latestBlock startBlock ([], 0%nat)
  = scan toISOString Math_random toFixed2 c blocks limit
      latestBlock startBlock ([], 0%nat).
Proof.
  intros startBlock. apply scan_fuel. unfold startBlock, blocks. lia.
Qed.

Lemma same_when_empty {A : Type} (l : list A) :
  match l with [] => [] | _ => l end = l.
Proof.
  now destruct l.
Qed.

(** X21.  [fetchRealTimeNFTActivity] always returns an array, the empty one
    when the client or the block height cannot be had.  The array holds at
    most [limit] rounded up to a whole number of entries, none for a limit
    of zero or less, and never more than 500 (ten for each of 50 blocks);
    its entries are in descending order of block number. *)
Theorem fetchRealTimeNFTActivity_bounded
    client toISOString Math_random toFixed2 (limit : Q) :
  let activities :=
    fetchRealTimeNFTActivity client toISOString Math_random toFixed2 limit in
  (List.length activities <= Transactions.capacity limit)%nat /\
  (List.length activities <= 500)%nat /\
  StronglySorted
    (fun x y => NFTActivity.blockNumber y <= NFTActivity.blockNumber x)
    activities /\
  ((forall c, client = Ok c ->
      exists message, Transactions.Client.getBlockNumber c = Err message) ->
   activities = []).
Proof.
  unfold fetchRealTimeNFTActivity.
  destruct client as [c|];
    [|repeat split; try (simpl; lia); constructor].
  destruct (Transactions.Client.getBlockNumber c) as [latest|] eqn:Eh;
    [|repeat split; try (simpl; lia); constructor].
  rewrite same_when_empty.
  pose proof (scan_shaped toISOString Math_random toFixed2 limit
                (latest - Z.min 50 latest) latest c blocks latest
                (latest - Z.min 50 latest) ([], 0%nat)
                ltac:(lia) ltac:(lia)) as H.
  destruct H as (Hlen & _ & Hsorted & _).
  { repeat split; try constructor. simpl. lia. intros x []. }
  pose proof (scan_adds toISOString Math_random toFixed2 c limit blocks
                latest (latest - Z.min 50 latest) ([], 0%nat)) as Hadd.
  cbv zeta. revert Hlen Hsorted Hadd.
  generalize (fst (scan toISOString Math_random toFixed2 c blocks limit
                     latest (latest - Z.min 50 latest) ([], 0%nat))).
  intros found Hlen Hsorted Hadd.
  change (List.length (fst (@nil NFTActivity.t, 0%nat)) + 10 * blocks)%nat
    with 500%nat in Hadd.
  repeat split; try assumption.
  intros Hfail. destruct (Hfail c eq_refl) as [message Hm]. congruence.
Qed.



End ActivityMore.
